(** * py_mega_account_generator: the provisioning workflow of [main.py]

    A shallow embedding of [main.py]: the command-line driver ([__main__]),
    [setup], [archive_folder], [loop_registrations], [register] and the
    account parser of [convert_accounts].

    The collaborators imported from [utilities.*], [services.*], [pyppeteer],
    [shutil] and [os] are calls to the outside world.  Every such call is
    recorded in a trace, and an environment ([World]) decides whether it
    raises and what it returns.  Python exceptions and [sys.exit] are the
    two abnormal outcomes of a computation; nothing in [main.py] catches
    either, so both propagate to the top. *)

From Stdlib Require Import String Ascii List ZArith Bool Arith Lia FinFun.
Import ListNotations.

Open Scope string_scope.
Open Scope list_scope.

(** ** Data *)

(** [utilities.etc.Credentials]: the fields [main.py] and the converter read. *)
Record Credentials := mkCredentials {
  name : string;
  email : string;
  emailPassword : string;
  password : string
}.

(** [utilities.fs.Config]: the two attributes [main.py] reads. *)
Record Config := mkConfig {
  executablePath : string;
  accountFormat : string
}.

(** [console_args], the namespace built by [parser.parse_args()].
    [file] and [loop] are [None] when the option is absent. *)
Record ConsoleArgs := mkArgs {
  keepalive : bool;
  extract : bool;
  verbose : bool;
  file : option string;
  public : bool;
  loop : option Z;
  convert : bool
}.

(** The mailbox session returned by [mail_login] and the message returned by
    [get_mail] are opaque to [main.py]: it only passes them on. *)
Definition Mail := string.

Definition Message := string.

Inductive Colour := OKGREEN | OKCYAN | WARNING | FAIL.

(** The texts [main.py] prints through [p_print]. *)
Inductive Text :=
| FailedToFindBrowser
| FoundExecutable
| FailedToFindExecutable
| LoopProgress (i : Z) (loop_count : Z)
| VerifiedAccount
| EmailAndPassword (e p : string)
| FileLargerThan5GB
| FileNotFound
| FailedWhileSettingUp
| FolderArchivedTo (path : string).

(** What the outside world observes of a run, in the order it happens.
    [EvRegister] marks the entry into [register]; [EvSleep] carries the
    delay in milliseconds ([asyncio.sleep(1.5)] is [EvSleep 1500]). *)
Inductive Event :=
| EvClearConsole
| EvCheckForUpdates
| EvConvertAccounts
| EvReadConfig
| EvWriteDefaultConfig
| EvConcreteReadConfig
| EvInput
| EvWriteConfig (key value : string)
| EvExtractCredentials (fmt : string)
| EvKeepalive (v : bool)
| EvClearTmp
| EvGenerateMail
| EvRegister (c : Credentials)
| EvLaunch (executable_path : string)
| EvCreateContext
| EvNewPage
| EvTypeName (c : Credentials)
| EvTypePassword (c : Credentials)
| EvFinishForm (c : Credentials)
| EvMailLogin (c : Credentials)
| EvSleep (milliseconds : Z)
| EvGetMail (mail : Mail)
| EvInitialSetup (message : option Message) (c : Credentials)
| EvClose
| EvPrint (t : Text) (col : Colour)
| EvDeleteDefault (c : Credentials)
| EvSaveCredentials (c : Credentials) (fmt : string)
| EvIsDir (path : string)
| EvExists (path : string)
| EvGetSize (path : string)
| EvUploadFile (pub : bool) (path : string) (c : Credentials)
| EvMakeArchive (base_name root_dir : string).

(** Exceptions: a collaborator that raised, or [os.path.getsize] on a path
    that does not exist. *)
Inductive Exn :=
| CallFailed (e : Event)
| FileNotFoundError (path : string).

(** Outcome of a computation: a value, an exception on its way up, or
    [SystemExit] with a status. *)
Inductive Res (A : Type) :=
| Ret (a : A)
| Raise (x : Exn)
| Exit (code : Z).
Arguments Ret {A} a.
Arguments Raise {A} x.
Arguments Exit {A} code.

(** The part of the file system the upload path can denote. *)
Inductive Node :=
| File (size : Z)
| Dir (size : Z).

Definition FS := string -> option Node.

Definition node_size (n : Node) : Z :=
  match n with File s => s | Dir s => s end.

Definition fs_isdir (f : FS) (path : string) : bool :=
  match f path with Some (Dir _) => true | _ => false end.

Definition fs_exists (f : FS) (path : string) : bool :=
  match f path with Some _ => true | None => false end.

Definition write_file (path : string) (size : Z) (f : FS) : FS :=
  fun p => if String.eqb p path then Some (File size) else f p.

(** The mutable state of the process: the trace so far, the file system, the
    module-level [console_args] (its [file] attribute is reassigned by
    [__main__]) and the number of identities generated so far. *)
Record State := mkState {
  trace : list Event;
  fs : FS;
  console_args : ConsoleArgs;
  generated : nat
}.

(** The environment. [raises h e] tells whether the call [e], made after the
    history [h], raises. *)
Record World := mkWorld {
  raises : list Event -> Event -> bool;
  fresh_credentials : nat -> Credentials;
  mailbox : Credentials -> Mail;
  inbox : Mail -> option Message;
  stored_config : option Config;
  default_config : Config;
  typed_path : string;
  archive_size : string -> Z
}.

(** ** A state-and-exception monad *)

Definition M (A : Type) := State -> Res A * State.

Definition ret {A} (a : A) : M A := fun st => (Ret a, st).

Definition bind {A B} (m : M A) (k : A -> M B) : M B :=
  fun st =>
    match m st with
    | (Ret a, st') => k a st'
    | (Raise x, st') => (Raise x, st')
    | (Exit c, st') => (Exit c, st')
    end.

(** [sys.exit(code)] *)
Definition sys_exit {A} (code : Z) : M A := fun st => (Exit code, st).

Declare Scope py_scope.
Delimit Scope py_scope with py.
Notation "x <- m ;; k" := (bind m (fun x => k))
  (at level 61, m at next level, right associativity) : py_scope.
Notation "m ;; k" := (bind m (fun _ => k))
  (at level 61, right associativity) : py_scope.
Open Scope py_scope.

Definition log (e : Event) (st : State) : State :=
  mkState (trace st ++ [e]) (fs st) (console_args st) (generated st).

(** An observable step that cannot fail ([p_print], [asyncio.sleep],
    [os.path.isdir], [os.path.exists], entry into [register]). *)
Definition emit (e : Event) : M unit := fun st => (Ret tt, log e st).

Definition get_args : M ConsoleArgs := fun st => (Ret (console_args st), st).

Definition set_file (f : option string) : M unit :=
  fun st =>
    let a := console_args st in
    (Ret tt,
     mkState (trace st) (fs st)
       (mkArgs (keepalive a) (extract a) (verbose a) f (public a) (loop a)
          (convert a))
       (generated st)).

Definition p_print (t : Text) (col : Colour) : M unit := emit (EvPrint t col).

Definition sleep (milliseconds : Z) : M unit := emit (EvSleep milliseconds).

Fixpoint for_each {A} (l : list A) (body : A -> M unit) : M unit :=
  match l with
  | [] => ret tt
  | a :: l' => body a ;; for_each l' body
  end.

(** [range(n)] *)
Definition range (n : Z) : list Z := map Z.of_nat (seq 0 (Z.to_nat n)).

(** ** The program *)

Section Program.

Variable w : World.

(** A call to a collaborator: it is observed, then it raises or returns. *)
Definition call (e : Event) : M unit :=
  fun st =>
    if raises w (trace st) e
    then (Raise (CallFailed e), log e st)
    else (Ret tt, log e st).

(** *** [os.path] and [shutil] *)

Definition isdir (path : string) : M bool :=
  fun st => (Ret (fs_isdir (fs st) path), log (EvIsDir path) st).

Definition exists_ (path : string) : M bool :=
  fun st => (Ret (fs_exists (fs st) path), log (EvExists path) st).

(** [os.path.getsize] raises on a path that does not exist. *)
Definition getsize (path : string) : M Z :=
  fun st =>
    match fs st path with
    | Some n => (Ret (node_size n), log (EvGetSize path) st)
    | None => (Raise (FileNotFoundError path), log (EvGetSize path) st)
    end.

(** The file [shutil.make_archive(base_name, "zip", root_dir)] writes is
    [base_name + ".zip"]: the zip archiver is handed [base_name] as it is
    given (CPython 3.10.6 and later) and names its output by appending the
    extension. *)
Definition write_archive (base_name root_dir : string) : M unit :=
  fun st =>
    (Ret tt,
     mkState (trace st)
       (write_file (base_name ++ ".zip")%string (archive_size w root_dir) (fs st))
       (console_args st) (generated st)).

Definition make_archive (base_name root_dir : string) : M unit :=
  call (EvMakeArchive base_name root_dir) ;;
  write_archive base_name root_dir.

(** *** Collaborators that return a value *)

Definition read_config : M (option Config) :=
  call EvReadConfig ;; ret (stored_config w).

Definition concrete_read_config : M Config :=
  call EvConcreteReadConfig ;; ret (default_config w).

Definition input : M string :=
  call EvInput ;; ret (typed_path w).

Definition next_credentials : M Credentials :=
  fun st =>
    (Ret (fresh_credentials w (generated st)),
     mkState (trace st) (fs st) (console_args st) (S (generated st))).

Definition generate_mail : M Credentials :=
  call EvGenerateMail ;; next_credentials.

Definition mail_login (credentials : Credentials) : M Mail :=
  call (EvMailLogin credentials) ;; ret (mailbox w credentials).

Definition get_mail (mail : Mail) : M (option Message) :=
  call (EvGetMail mail) ;; ret (inbox w mail).

(** *** [str.rstrip(chars)] *)

Fixpoint mem_ascii (c : ascii) (chars : string) : bool :=
  match chars with
  | EmptyString => false
  | String d r => Ascii.eqb c d || mem_ascii c r
  end.

Fixpoint rstrip (chars : string) (s : string) : string :=
  match s with
  | EmptyString => EmptyString
  | String c r =>
      match rstrip chars r with
      | EmptyString => if mem_ascii c chars then EmptyString else String c EmptyString
      | r' => String c r'
      end
  end.

(** *** [setup] *)

Definition setup : M (string * Config) :=
  config <- read_config ;;
  ec <- match config with
        | None =>
            call EvWriteDefaultConfig ;;
            c <- concrete_read_config ;;
            ret ("", c)
        | Some c => ret (executablePath c, c)
        end ;;
  let '(executable_path, config) := ec in
  if String.eqb executable_path "" then
    p_print FailedToFindBrowser FAIL ;;
    executable_path <- input ;;
    found <- exists_ executable_path ;;
    if found then
      p_print FoundExecutable OKGREEN ;;
      call (EvWriteConfig "executablePath" executable_path) ;;
      ret (executable_path, config)
    else
      p_print FailedToFindExecutable FAIL ;;
      sys_exit 1
  else ret (executable_path, config).

(** *** [archive_folder] *)

Definition archive_folder (folder_path : string) : M string :=
  d <- isdir folder_path ;;
  if negb d then ret folder_path
  else
    let archive_path := (rstrip "/\" folder_path ++ ".zip")%string in
    make_archive folder_path folder_path ;;
    ret archive_path.

(** *** [register] *)

(** Lines 261-271: the upload decision at the end of [register].  The
    floats [2e10] and [5e9] are the integers 20000000000 and 5000000000, and
    Python compares an integer with a float exactly. *)
Definition register_upload (credentials : Credentials) : M unit :=
  args <- get_args ;;
  match file args with
  | None => ret tt
  | Some f =>
      file_size <- getsize f ;;
      found <- exists_ f ;;
      if found && (0 <? file_size)%Z && (file_size <? 20000000000)%Z then
        (if (5000000000 <=? file_size)%Z
         then p_print FileLargerThan5GB WARNING
         else ret tt) ;;
        call (EvUploadFile (public args) f credentials)
      else
        p_print FileNotFound FAIL
  end.

Definition register (credentials : Credentials) (executable_path : string)
    (config : Config) : M unit :=
  emit (EvRegister credentials) ;;
  call (EvLaunch executable_path) ;;
  call EvCreateContext ;;
  call EvNewPage ;;
  call (EvTypeName credentials) ;;
  call (EvTypePassword credentials) ;;
  call (EvFinishForm credentials) ;;
  mail <- mail_login credentials ;;
  sleep 1500 ;;
  message <- get_mail mail ;;
  call (EvInitialSetup message credentials) ;;
  sleep 500 ;;
  call EvClose ;;
  p_print VerifiedAccount OKGREEN ;;
  p_print (EmailAndPassword (email credentials) (password credentials)) OKCYAN ;;
  call (EvDeleteDefault credentials) ;;
  call (EvSaveCredentials credentials (accountFormat config)) ;;
  register_upload credentials ;;
  args <- get_args ;;
  match loop args with
  | None => sys_exit 0
  | Some n => if (n <=? 1)%Z then sys_exit 0 else ret tt
  end.

(** *** [loop_registrations] *)

Definition loop_registrations (loop_count : Z) (executable_path : string)
    (config : Config) : M unit :=
  for_each (range loop_count) (fun i =>
    p_print (LoopProgress (i + 1) loop_count) OKGREEN ;;
    call EvClearTmp ;;
    credentials <- generate_mail ;;
    register credentials executable_path config).

(** *** [__main__] *)

(** The [else] branch of [__main__]: one provisioning attempt. *)
Definition single_shot (executable_path : string) (config : Config) : M unit :=
  call EvClearTmp ;;
  credentials <- generate_mail ;;
  args <- get_args ;;
  match file args with
  | Some f =>
      if String.eqb f "" then ret tt
      else
        d <- isdir f ;;
        if d then
          archived <- archive_folder f ;;
          set_file (Some archived) ;;
          p_print (FolderArchivedTo archived) OKCYAN
        else ret tt
  | None => ret tt
  end ;;
  register credentials executable_path config.

(** [convert_accounts] works on files of its own and is one call here; its
    parser is embedded below. *)
Definition main : M unit :=
  call EvClearConsole ;;
  call EvCheckForUpdates ;;
  args <- get_args ;;
  (if convert args then call EvConvertAccounts ;; sys_exit 0 else ret tt) ;;
  ec <- setup ;;
  let '(executable_path, config) := ec in
  if String.eqb executable_path "" then
    p_print FailedWhileSettingUp FAIL ;;
    sys_exit 1
  else if extract args then
    call (EvExtractCredentials (accountFormat config))
  else if keepalive args then
    call (EvKeepalive (verbose args))
  else
    match loop args with
    | Some n =>
        if (1 <? n)%Z then loop_registrations n executable_path config
        else single_shot executable_path config
    | None => single_shot executable_path config
    end.

End Program.

(** ** The account parser of [convert_accounts] *)

Definition newline : ascii := "010"%char.

(** What is left of [s] after the literal [p], when [s] starts with it. *)
Fixpoint strip_prefix (p s : string) : option string :=
  match p with
  | EmptyString => Some s
  | String a p' =>
      match s with
      | EmptyString => None
      | String b s' => if Ascii.eqb a b then strip_prefix p' s' else None
      end
  end.

(** The greedy group [(.+)] at the end of a pattern: every character up to
    the next newline ([.] matches anything but a newline). *)
Fixpoint line (s : string) : string :=
  match s with
  | EmptyString => EmptyString
  | String c r => if Ascii.eqb c newline then EmptyString else String c (line r)
  end.

(** The pattern [label(.+)] at the start of [text]: the group, when the
    label is there and at least one character follows on its line. *)
Definition match_here (label text : string) : option string :=
  match strip_prefix label text with
  | Some rest =>
      match line rest with
      | EmptyString => None
      | g => Some g
      end
  | None => None
  end.

(** [re.search(label + "(.+)", text)], then [.group(1)]: the leftmost
    position where the pattern matches. *)
Fixpoint search (label text : string) : option string :=
  match match_here label text with
  | Some g => Some g
  | None =>
      match text with
      | EmptyString => None
      | String _ t => search label t
      end
  end.

(** [parse_account]; the dictionary it returns is the list of its items. *)
Definition parse_account (account_text : string) : option (list (string * string)) :=
  match search "Email: " account_text,
        search "Email Password: " account_text,
        search "Mega Password: " account_text with
  | Some email_match, Some email_pass_match, Some mega_pass_match =>
      Some [("email", email_match);
            ("emailPassword", email_pass_match);
            ("password", mega_pass_match)]
  | _, _, _ => None
  end.

(** ** The credential record *)

(** A piece of a record template: literal text or a placeholder. *)
Inductive Piece :=
| Lit (s : string)
| FieldEmail
| FieldEmailPassword
| FieldPassword.

Definition fill (c : Credentials) (p : Piece) : string :=
  match p with
  | Lit s => s
  | FieldEmail => email c
  | FieldEmailPassword => emailPassword c
  | FieldPassword => password c
  end.

(** Modelled from the spec: [save_credentials] of [utilities.fs] is not in
    [main.py].  The specification has it format the credential fields into
    the configured template, a string with the placeholders email,
    email-password and account-password; this is the record it appends. *)
Definition format_record (template : list Piece) (c : Credentials) : string :=
  fold_right (fun p rest => (fill c p ++ rest)%string) "" template.

(** Modelled from the spec: the template known to the converter is not in
    [main.py] either.  It is the one the parser reads back: the three fields
    on a line each, under the labels the parser looks for, followed by
    [trailer] (nothing, or a newline and whatever separates the records). *)
Definition known_template (trailer : string) : list Piece :=
  [Lit "Email: "; FieldEmail;
   Lit (String newline "Email Password: "); FieldEmailPassword;
   Lit (String newline "Mega Password: "); FieldPassword;
   Lit trailer].

(** [label in s] *)
Fixpoint contains (label s : string) : bool :=
  match strip_prefix label s with
  | Some _ => true
  | None =>
      match s with
      | EmptyString => false
      | String _ t => contains label t
      end
  end.

Fixpoint one_line (s : string) : bool :=
  match s with
  | EmptyString => true
  | String c r => negb (Ascii.eqb c newline) && one_line r
  end.

Definition nonempty (s : string) : bool :=
  match s with EmptyString => false | _ => true end.

(** A field the pattern [(.+)] reads back whole. *)
Definition readable (s : string) : bool := nonempty s && one_line s.

(** Credentials the parser reads back: every field is a non-empty single
    line, and no field holds the label of a later one. *)
Definition parseable (c : Credentials) : bool :=
  readable (email c) && readable (emailPassword c) && readable (password c) &&
  negb (contains "Email Password: " (email c)) &&
  negb (contains "Mega Password: " (email c)) &&
  negb (contains "Mega Password: " (emailPassword c)).

(** What may follow the last field. *)
Definition ends_line (trailer : string) : bool :=
  match trailer with
  | EmptyString => true
  | String c _ => Ascii.eqb c newline
  end.

(** ** Observations on traces *)

Definition is_close (e : Event) : bool :=
  match e with EvClose => true | _ => false end.

(** Number of times the browser session was closed. *)
Definition closes (l : list Event) : nat := length (filter is_close l).

Definition is_lifecycle (e : Event) : bool :=
  match e with
  | EvClearTmp | EvGenerateMail | EvRegister _ => true
  | _ => false
  end.

(** The resets of the working directory, the generations of an identity and
    the invocations of [register], in the order they happen. *)
Definition lifecycle (l : list Event) : list Event := filter is_lifecycle l.

(** One iteration of the batch, as the outside world sees its life cycle. *)
Definition iteration (c : Credentials) : list Event :=
  [EvClearTmp; EvGenerateMail; EvRegister c].

Definition is_mail_step (e : Event) : bool :=
  match e with
  | EvSleep _ | EvGetMail _ | EvInitialSetup _ _ => true
  | _ => false
  end.

(** The waits, the mailbox polls and the verification step. *)
Definition mail_steps (l : list Event) : list Event := filter is_mail_step l.

Definition is_save (e : Event) : bool :=
  match e with EvSaveCredentials _ _ => true | _ => false end.

(** The credential records handed to [save_credentials]. *)
Definition persisted (l : list Event) : list Event := filter is_save l.

Definition is_archive_or_size (e : Event) : bool :=
  match e with
  | EvMakeArchive _ _ | EvGetSize _ | EvExists _ | EvIsDir _ => true
  | _ => false
  end.

(** The archiving step and the checks made on the upload path. *)
Definition path_steps (l : list Event) : list Event := filter is_archive_or_size l.

(** The steps of [register] that come before [browser.close()]. *)
Definition before_close (e : Event) : bool :=
  match e with
  | EvLaunch _ | EvCreateContext | EvNewPage | EvTypeName _ | EvTypePassword _
  | EvFinishForm _ | EvMailLogin _ | EvGetMail _ | EvInitialSetup _ _ => true
  | _ => false
  end.

Definition failed_before_close {A} (r : Res A) : bool :=
  match r with
  | Raise (CallFailed e) => before_close e
  | _ => false
  end.

(** The exit status of the interpreter: an uncaught exception ends the
    process with status 1, a normal end with status 0. *)
Definition exit_status {A} (r : Res A) : Z :=
  match r with
  | Ret _ => 0%Z
  | Raise _ => 1%Z
  | Exit c => c
  end.

(** ** Properties of runs *)

(** No collaborator raises. *)
Definition calm (w : World) : Prop := forall h e, raises w h e = false.

(** The upload path, when one is given, exists. *)
Definition upload_path_ok (st : State) : bool :=
  match file (console_args st) with
  | None => true
  | Some f => fs_exists (fs st) f
  end.

(** The upload path [register] is left with in a single-shot run, when one
    is given, exists by then: a regular file is there from the start, and in
    the place of a directory [__main__] has put the path [archive_folder]
    returns, after [make_archive] wrote the archive. *)
Definition upload_ready (w : World) (st : State) : bool :=
  match file (console_args st) with
  | None => true
  | Some f =>
      if String.eqb f "" then fs_exists (fs st) f
      else if fs_isdir (fs st) f then
        fs_exists
          (write_file (f ++ ".zip")%string (archive_size w f) (fs st))
          (rstrip "/\" f ++ ".zip")%string
      else fs_exists (fs st) f
  end.

(** [setup] comes back with a browser: the configuration names one, or the
    path the user types exists. *)
Definition browser_available (w : World) (st : State) : bool :=
  let typed := fs_exists (fs st) (typed_path w) &&
               negb (String.eqb (typed_path w) "") in
  match stored_config w with
  | Some c => if String.eqb (executablePath c) "" then typed else true
  | None => typed
  end.

(** The configuration [setup] hands on. *)
Definition config_in_use (w : World) : Config :=
  match stored_config w with
  | Some c => c
  | None => default_config w
  end.

(** What [register] does at its end, by [console_args.loop]. *)
Definition register_end (st : State) : Res unit :=
  match loop (console_args st) with
  | None => Exit 0%Z
  | Some n => if (n <=? 1)%Z then Exit 0%Z else Ret tt
  end.

Inductive Decision := REJECT | ATTEMPT | ATTEMPT_WITH_WARNING.

(** The decision rule in the words of the specification: [found] tells
    whether the path exists, [s] is its size in bytes. *)
Definition decide (found : bool) (s : Z) : Decision :=
  if negb found || (s <=? 0)%Z || (20000000000 <=? s)%Z then REJECT
  else if (5000000000 <=? s)%Z then ATTEMPT_WITH_WARNING
  else ATTEMPT.

(** What each decision is from outside. *)
Definition decision_events (d : Decision) (pub : bool) (f : string)
    (c : Credentials) : list Event :=
  match d with
  | REJECT => [EvPrint FileNotFound FAIL]
  | ATTEMPT => [EvUploadFile pub f c]
  | ATTEMPT_WITH_WARNING =>
      [EvPrint FileLargerThan5GB WARNING; EvUploadFile pub f c]
  end.

(** An event of a run that archives nothing and hands the upload path of the
    command line [a] to the size check and to the upload as it is. *)
Definition checks_given_path (a : ConsoleArgs) (e : Event) : Prop :=
  match e with
  | EvMakeArchive _ _ => False
  | EvGetSize p => file a = Some p
  | EvUploadFile _ p _ => file a = Some p
  | _ => True
  end.

(** Every event between [st] and [st'] satisfies [P]. *)
Definition run_satisfies (P : Event -> Prop) (st st' : State) : Prop :=
  exists evs, trace st' = trace st ++ evs /\ Forall P evs.

(** What a batch run never does, whatever happens: nothing is archived,
    [console_args] and the file system are left as they were, and a size
    check or an upload gets no other path than that of the command line. *)
Definition batch_safe (st : State) (r : Res unit * State) : Prop :=
  console_args (snd r) = console_args st /\
  fs (snd r) = fs st /\
  run_satisfies (checks_given_path (console_args st)) st (snd r).

Definition is_size_check (e : Event) : bool :=
  match e with
  | EvGetSize _ | EvMakeArchive _ _ => true
  | _ => false
  end.

(** The archives made and the sizes asked for. *)
Definition size_checks (l : list Event) : list Event := filter is_size_check l.

(** The size check of one round of a batch: on the upload path of the
    command line [a], as it is given. *)
Definition given_path_check (a : ConsoleArgs) : list Event :=
  match file a with
  | Some f => [EvGetSize f]
  | None => []
  end.

(** A batch run of [n] rounds: what it never does, and, when no collaborator
    raises and the browser is there, what it does.  With an upload path
    that exists, or none, it returns to [__main__] after [n] rounds of reset,
    identity and [register], the size check of each round got the path of
    the command line, a directory as well, and nothing was archived.  With
    an upload path that does not exist, the size check of the first round
    gets that path and ends the batch. *)
Definition batch_run (w : World) (n : Z) (st : State) (r : Res unit * State)
    : Prop :=
  batch_safe st r /\
  (calm w -> browser_available w st = true -> upload_path_ok st = true ->
   fst r = Ret tt /\
   lifecycle (trace (snd r)) =
   lifecycle (trace st) ++
   flat_map iteration
     (map (fresh_credentials w) (seq (generated st) (Z.to_nat n))) /\
   size_checks (trace (snd r)) =
   size_checks (trace st) ++
   concat (repeat (given_path_check (console_args st)) (Z.to_nat n))) /\
  (calm w -> browser_available w st = true ->
   forall f, file (console_args st) = Some f -> fs st f = None ->
   fst r = Raise (FileNotFoundError f) /\
   size_checks (trace (snd r)) = size_checks (trace st) ++ [EvGetSize f]).

(** A single-shot run never returns to [__main__]: it ends with an uncaught
    exception, with status 1 out of the set-up and before any attempt, or
    with status 0 after one complete attempt whose credentials have been
    persisted.  It does end with status 0 when nothing raises. *)
Definition single_shot_end (w : World) (st : State) (r : Res unit * State) : Prop :=
  let c := fresh_credentials w (generated st) in
  match fst r with
  | Ret _ => False
  | Raise _ => True
  | Exit code =>
      (code = 1%Z /\ lifecycle (trace (snd r)) = lifecycle (trace st)) \/
      (code = 0%Z /\
       lifecycle (trace (snd r)) = lifecycle (trace st) ++ iteration c /\
       persisted (trace (snd r)) =
       persisted (trace st) ++
       [EvSaveCredentials c (accountFormat (config_in_use w))])
  end.

(** The archive made and the size asked for in a single-shot run: a
    directory is archived first, and the size check is on the path
    [archive_folder] returned. *)
Definition single_shot_checks (st : State) : list Event :=
  match file (console_args st) with
  | None => []
  | Some f =>
      if String.eqb f "" then [EvGetSize f]
      else if fs_isdir (fs st) f then
        [EvMakeArchive f f; EvGetSize (rstrip "/\" f ++ ".zip")%string]
      else [EvGetSize f]
  end.

(** A single-shot run: how it ends, and, when nothing raises, the browser is
    there and the path is ready, that it ends with status 0 after the steps
    of [single_shot_checks]. *)
Definition single_shot_run (w : World) (st : State) (r : Res unit * State) : Prop :=
  single_shot_end w st r /\
  (calm w -> browser_available w st = true -> upload_ready w st = true ->
   fst r = Exit 0%Z /\
   size_checks (trace (snd r)) = size_checks (trace st) ++ single_shot_checks st).

(** ** Outcomes of computations *)

(** [post m st Q]: running [m] from [st] ends in an outcome and a state
    that satisfy [Q]. *)
Definition post {A} (m : M A) (st : State) (Q : Res A -> State -> Prop) : Prop :=
  Q (fst (m st)) (snd (m st)).

(** How an outcome of [m] continues into [k]. *)
Definition then_post {A B} (k : A -> M B) (Q : Res B -> State -> Prop)
    (r : Res A) (st : State) : Prop :=
  match r with
  | Ret a => post (k a) st Q
  | Raise x => Q (Raise x) st
  | Exit c => Q (Exit c) st
  end.

(** ** Concrete runs *)

Definition alice : Credentials :=
  mkCredentials "Alice" "alice@mail.test" "mailpw" "megapw".

(** Credentials whose email password is blank. *)
Definition blank_mail_password : Credentials :=
  mkCredentials "Alice" "alice@mail.test" "" "megapw".

(** The identity of the [k]-th call of a generator that never repeats
    itself: its alias is [k] letters long. *)
Fixpoint alias (k : nat) : string :=
  match k with
  | 0 => EmptyString
  | S k' => String "x" (alias k')
  end.

Definition numbered (k : nat) : Credentials :=
  mkCredentials "User" (alias k) "mailpw" "megapw".

Definition chrome : string := "/usr/bin/chromium".

Definition plain_config : Config := mkConfig chrome "{email}:{password}".

Definition never : list Event -> Event -> bool := fun _ _ => false.

(** A world in which every collaborator answers. *)
Definition quiet_world : World :=
  mkWorld never numbered email (fun _ => Some "confirm") (Some plain_config)
    plain_config chrome (fun _ => 1024%Z).

(** The same world, except that filling the name field raises. *)
Definition name_field_fails : World :=
  mkWorld (fun _ e => match e with EvTypeName _ => true | _ => false end)
    numbered email (fun _ => Some "confirm") (Some plain_config)
    plain_config chrome (fun _ => 1024%Z).


(** The same world, except that the mailbox holds no message when polled. *)
Definition empty_inbox : World :=
  mkWorld never numbered email (fun _ => None) (Some plain_config)
    plain_config chrome (fun _ => 1024%Z).

(** The same world, except that the mailbox poll raises. *)
Definition poll_fails : World :=
  mkWorld (fun _ e => match e with EvGetMail _ => true | _ => false end)
    numbered email (fun _ => Some "confirm") (Some plain_config)
    plain_config chrome (fun _ => 1024%Z).

(** No configuration file, and the user types a path that does not exist. *)
Definition no_browser : World :=
  mkWorld never numbered email (fun _ => Some "confirm") None
    (mkConfig "" "{email}:{password}") "/nowhere/chrome" (fun _ => 1024%Z).

Definition no_files : FS := fun _ => None.

(** A file system with one directory, reachable with or without a trailing
    separator, and one regular file of 3 bytes. *)
Definition photos_fs : FS :=
  fun p =>
    if String.eqb p "photos/" then Some (Dir 4096)
    else if String.eqb p "photos" then Some (Dir 4096)
    else if String.eqb p "notes.txt" then Some (File 3)
    else None.

Definition cli (f : option string) (l : option Z) : ConsoleArgs :=
  mkArgs false false false f false l false.

Definition start (f : FS) (a : ConsoleArgs) : State := mkState [] f a 0.

(** ** The rest of [convert_accounts] *)

(** The characters [str.strip()] removes: the white space of Python among
    the code points below 256. *)
Definition whitespace : string :=
  String "009" (String "010" (String "011" (String "012" (String "013"
  (String "028" (String "029" (String "030" (String "031" (String "032"
  (String "133" (String "160" EmptyString))))))))))).

(** [str.lstrip(chars)] *)
Fixpoint lstrip (chars : string) (s : string) : string :=
  match s with
  | EmptyString => EmptyString
  | String c r => if mem_ascii c chars then lstrip chars r else s
  end.

(** [str.strip()] *)
Definition strip (s : string) : string := lstrip whitespace (rstrip whitespace s).

(** [str.split(sep)] for a non-empty [sep], scanning from the left: [cur] is
    the piece being read, [skip] counts the characters of a separator just
    found that are still to be passed over. *)
Fixpoint split_go (sep : string) (skip : nat) (cur : string) (s : string)
    : list string :=
  match s with
  | EmptyString => [cur]
  | String c t =>
      match skip with
      | S k => split_go sep k cur t
      | O =>
          match strip_prefix sep s with
          | Some _ => cur :: split_go sep (String.length sep - 1) EmptyString t
          | None => split_go sep 0 (cur ++ String c EmptyString)%string t
          end
      end
  end.

Definition split (sep : string) (s : string) : list string :=
  split_go sep 0 EmptyString s.

(** The line between two records of [accounts.txt]. *)
Definition separator : string := "-------------------".

(** [account_data[key]] *)
Fixpoint dict_get (key : string) (d : list (string * string)) : option string :=
  match d with
  | [] => None
  | (k, v) :: d' => if String.eqb k key then Some v else dict_get key d'
  end.

(** The name of the JSON file of an account:
    [f"{email.split('@')[0]}@{email.split('@')[1].split('.')[0]}.json"].
    [None] is the [IndexError] of [email.split('@')[1]]. *)
Definition json_filename (email : string) : option string :=
  match split "@" email with
  | user :: host :: _ =>
      match split "." host with
      | label :: _ => Some (user ++ "@" ++ label ++ ".json")%string
      | [] => None
      end
  | _ => None
  end.

(** How [convert_accounts] ends: without [accounts.txt]; after its loop, with
    the files it wrote (name under the credentials folder and content, in the
    order written) and its counter; or with an exception out of the loop
    (the [IndexError] of the file name), after the files written until then.
    Opening and writing a file is taken to succeed. *)
Inductive Conversion :=
| AccountsNotFound
| Converted (files : list (string * list (string * string))) (converted : nat)
| ConversionError (files : list (string * list (string * string))).

(** The loop over the accounts. *)
Fixpoint convert_loop (accounts : list string)
    (files : list (string * list (string * string))) (converted : nat)
    : Conversion :=
  match accounts with
  | [] => Converted files converted
  | account :: rest =>
      if String.eqb (strip account) "" then convert_loop rest files converted
      else
        match parse_account (strip account) with
        | None => convert_loop rest files converted
        | Some account_data =>
            match dict_get "email" account_data with
            | None => ConversionError files
            | Some email =>
                match json_filename email with
                | None => ConversionError files
                | Some filename =>
                    convert_loop rest (files ++ [(filename, account_data)])
                      (S converted)
                end
            end
        end
  end.

Definition carriage_return : ascii := "013"%char.

(** What [f.read()] returns of a file opened with [open(path, "r")]: the
    text mode of Python has universal newlines, so a carriage return followed
    by a line feed, and a carriage return alone, are each read as one line
    feed. *)
Fixpoint read_text (file_text : string) : string :=
  match file_text with
  | EmptyString => EmptyString
  | String c t =>
      if Ascii.eqb c carriage_return then
        match t with
        | EmptyString => String newline EmptyString
        | String c' _ =>
            if Ascii.eqb c' newline then read_text t
            else String newline (read_text t)
        end
      else String c (read_text t)
  end.

(** [convert_accounts], from the text stored in [accounts.txt] ([None] when
    the file does not exist): [content] is what the text-mode read makes of
    it. *)
Definition convert_accounts (accounts_txt : option string) : Conversion :=
  match accounts_txt with
  | None => AccountsNotFound
  | Some file_text =>
      let content := read_text file_text in
      convert_loop (split separator content) [] 0
  end.

(** The last character of [s] is one of [chars]. *)
Fixpoint last_in (chars : string) (s : string) : bool :=
  match s with
  | EmptyString => false
  | String c EmptyString => mem_ascii c chars
  | String _ r => last_in chars r
  end.

(** Every character of [s] is one of [chars]. *)
Fixpoint all_in (chars : string) (s : string) : bool :=
  match s with
  | EmptyString => true
  | String c r => mem_ascii c chars && all_in chars r
  end.

(** The text of one account in the layout [parse_account] reads. *)
Definition account_text (c : Credentials) : string :=
  ("Email: " ++ email c ++
   String newline ("Email Password: " ++ emailPassword c ++
   String newline ("Mega Password: " ++ password c)))%string.

(** The accounts [cs] one after the other, each followed by a line of
    [separator], and then the text [more]. *)
Definition accounts_before (cs : list Credentials) (more : string) : string :=
  fold_right
    (fun c rest =>
       (account_text c ++ String newline (separator ++ String newline rest))%string)
    more cs.

(** An [accounts.txt] in the layout [convert_accounts] reads: the accounts
    one after the other, each followed by a line of [separator]. *)
Definition accounts_file (cs : list Credentials) : string :=
  accounts_before cs EmptyString.





(** [piece] stands somewhere in [s]. *)
Definition part_of (piece s : string) : Prop :=
  exists before after, s = (before ++ piece ++ after)%string.

(** ** Further observations *)

Definition is_milestone (e : Event) : bool :=
  match e with
  | EvInitialSetup _ _ | EvClose | EvDeleteDefault _ | EvSaveCredentials _ _
  | EvUploadFile _ _ _ => true
  | _ => false
  end.

(** The verification, the close of the session, the clean-up, the
    persisting of the credentials and the upload. *)
Definition milestones (l : list Event) : list Event := filter is_milestone l.

Definition is_upload (e : Event) : bool :=
  match e with EvUploadFile _ _ _ => true | _ => false end.

Definition uploads (l : list Event) : list Event := filter is_upload l.

Definition is_warning (e : Event) : bool :=
  match e with EvPrint FileLargerThan5GB _ => true | _ => false end.

Definition warnings (l : list Event) : list Event := filter is_warning l.

Definition is_service (e : Event) : bool :=
  match e with
  | EvExtractCredentials _ | EvKeepalive _ | EvConvertAccounts => true
  | _ => false
  end.

(** The calls of the modes that provision nothing. *)
Definition services (l : list Event) : list Event := filter is_service l.

Definition is_setup_step (e : Event) : bool :=
  match e with
  | EvReadConfig | EvWriteDefaultConfig | EvConcreteReadConfig | EvInput
  | EvWriteConfig _ _ => true
  | _ => false
  end.

(** The steps of [setup] on the configuration and the prompt. *)
Definition setup_steps (l : list Event) : list Event := filter is_setup_step l.

(** [new] is the start of [full]. *)
Definition starts (new full : list Event) : Prop :=
  exists rest, new ++ rest = full.

(** What [__main__] does under [--convert]. *)
Definition convert_steps : list Event :=
  [EvClearConsole; EvCheckForUpdates; EvConvertAccounts].




(** What a complete run of [register] goes through after the poll. *)
Definition register_milestones (w : World) (c : Credentials) (config : Config)
    (a : ConsoleArgs) : list Event :=
  [EvInitialSetup (inbox w (mailbox w c)) c; EvClose; EvDeleteDefault c;
   EvSaveCredentials c (accountFormat config)] ++
  match file a with
  | Some f => [EvUploadFile (public a) f c]
  | None => []
  end.

(** The trace of a run of [register] in which nothing raises and no upload
    was asked for. *)
Definition register_steps (w : World) (c : Credentials)
    (executable_path : string) (config : Config) : list Event :=
  [EvRegister c; EvLaunch executable_path; EvCreateContext; EvNewPage;
   EvTypeName c; EvTypePassword c; EvFinishForm c; EvMailLogin c;
   EvSleep 1500; EvGetMail (mailbox w c);
   EvInitialSetup (inbox w (mailbox w c)) c; EvSleep 500; EvClose;
   EvPrint VerifiedAccount OKGREEN;
   EvPrint (EmailAndPassword (email c) (password c)) OKCYAN;
   EvDeleteDefault c; EvSaveCredentials c (accountFormat config)].

(** In [text], the field [g] stands right after [label] and runs to the end
    of its line. *)
Definition follows_label (label g text : string) : Prop :=
  exists before after,
    text = (before ++ label ++ g ++ after)%string /\ ends_line after = true.

(** ** Further concrete runs *)

(** No configuration file yet; the user types the path of a file that
    exists in [photos_fs]. *)
Definition first_run : World :=
  mkWorld never numbered email (fun _ => Some "confirm") None
    plain_config "notes.txt" (fun _ => 1024%Z).


Definition bob : Credentials :=
  mkCredentials "Bob" "bob@mail.example.org" "pw two" "secret-2".

(** * Proofs *)

(** ** Reasoning about computations *)

Lemma post_bind {A B} (m : M A) (k : A -> M B) st Q :
  post m st (then_post k Q) -> post (bind m k) st Q.
Proof.
  unfold post, then_post, bind.
  destruct (m st) as [[a | x | c] st']; simpl; auto.
Qed.

Lemma post_weaken {A} (m : M A) st (P Q : Res A -> State -> Prop) :
  post m st P -> (forall r st', P r st' -> Q r st') -> post m st Q.
Proof. unfold post; auto. Qed.

Lemma post_ret {A} (a : A) st (Q : Res A -> State -> Prop) :
  Q (Ret a) st -> post (ret a) st Q.
Proof. auto. Qed.

Lemma post_exit {A} c st (Q : Res A -> State -> Prop) :
  Q (Exit c) st -> post (sys_exit c) st Q.
Proof. auto. Qed.

Lemma post_emit e st (Q : Res unit -> State -> Prop) :
  Q (Ret tt) (log e st) -> post (emit e) st Q.
Proof. auto. Qed.

Lemma post_call w e st (Q : Res unit -> State -> Prop) :
  (raises w (trace st) e = true -> Q (Raise (CallFailed e)) (log e st)) ->
  (raises w (trace st) e = false -> Q (Ret tt) (log e st)) ->
  post (call w e) st Q.
Proof.
  unfold post, call. destruct (raises w (trace st) e); simpl; auto.
Qed.

Lemma post_getsize p st (Q : Res Z -> State -> Prop) :
  (fs st p = None -> Q (Raise (FileNotFoundError p)) (log (EvGetSize p) st)) ->
  (forall n, fs st p = Some n -> Q (Ret (node_size n)) (log (EvGetSize p) st)) ->
  post (getsize p) st Q.
Proof.
  unfold post, getsize. destruct (fs st p); simpl; auto.
Qed.

Lemma post_get_args st (Q : Res ConsoleArgs -> State -> Prop) :
  Q (Ret (console_args st)) st -> post get_args st Q.
Proof. auto. Qed.

Lemma post_set_file f st (Q : Res unit -> State -> Prop) :
  Q (Ret tt) (snd (set_file f st)) -> post (set_file f) st Q.
Proof. auto. Qed.

Lemma post_next_credentials w st (Q : Res Credentials -> State -> Prop) :
  Q (Ret (fresh_credentials w (generated st))) (snd (next_credentials w st)) ->
  post (next_credentials w) st Q.
Proof. auto. Qed.

Lemma post_write_archive w b r st (Q : Res unit -> State -> Prop) :
  Q (Ret tt) (snd (write_archive w b r st)) -> post (write_archive w b r) st Q.
Proof. auto. Qed.

Lemma post_isdir p st (Q : Res bool -> State -> Prop) :
  Q (Ret (fs_isdir (fs st) p)) (log (EvIsDir p) st) -> post (isdir p) st Q.
Proof. auto. Qed.

Lemma post_exists p st (Q : Res bool -> State -> Prop) :
  Q (Ret (fs_exists (fs st) p)) (log (EvExists p) st) -> post (exists_ p) st Q.
Proof. auto. Qed.

Lemma filter_snoc {A} (p : A -> bool) l a :
  filter p (l ++ [a]) = filter p l ++ (if p a then [a] else []).
Proof. rewrite filter_app. simpl. destruct (p a); reflexivity. Qed.

Lemma closes_snoc l e :
  closes (l ++ [e]) = closes l + (if is_close e then 1 else 0).
Proof.
  unfold closes. rewrite filter_snoc, length_app.
  destruct (is_close e); reflexivity.
Qed.

Lemma lifecycle_snoc l e :
  lifecycle (l ++ [e]) = lifecycle l ++ (if is_lifecycle e then [e] else []).
Proof. apply filter_snoc. Qed.

Lemma mail_steps_snoc l e :
  mail_steps (l ++ [e]) = mail_steps l ++ (if is_mail_step e then [e] else []).
Proof. apply filter_snoc. Qed.

Lemma persisted_snoc l e :
  persisted (l ++ [e]) = persisted l ++ (if is_save e then [e] else []).
Proof. apply filter_snoc. Qed.

Lemma path_steps_snoc l e :
  path_steps (l ++ [e]) = path_steps l ++ (if is_archive_or_size e then [e] else []).
Proof. apply filter_snoc. Qed.

Lemma run_satisfies_refl P st : run_satisfies P st st.
Proof. exists []. rewrite app_nil_r. auto. Qed.

Lemma run_satisfies_trans P st1 st2 st3 :
  run_satisfies P st1 st2 -> run_satisfies P st2 st3 -> run_satisfies P st1 st3.
Proof.
  intros (e1 & H1 & F1) (e2 & H2 & F2). exists (e1 ++ e2). split.
  - rewrite H2, H1, app_assoc. reflexivity.
  - apply Forall_app. auto.
Qed.

(** One step of symbolic execution. *)
Ltac wp_step :=
  lazymatch goal with
  | |- post (bind _ _) _ _ => apply post_bind
  | |- post (call _ _) _ _ => apply post_call; intro
  | |- post (emit _) _ _ => apply post_emit
  | |- post (p_print _ _) _ _ => apply post_emit
  | |- post (sleep _) _ _ => apply post_emit
  | |- post (ret _) _ _ => apply post_ret
  | |- post (sys_exit _) _ _ => apply post_exit
  | |- post (getsize _) _ _ => apply post_getsize; [intro | intros ? ?]
  | |- post (mail_login _ _) _ _ => unfold mail_login
  | |- post (get_mail _ _) _ _ => unfold get_mail
  | |- post (read_config _) _ _ => unfold read_config
  | |- post (concrete_read_config _) _ _ => unfold concrete_read_config
  | |- post (input _) _ _ => unfold input
  | |- post (generate_mail _) _ _ => unfold generate_mail
  | |- post (make_archive _ _ _) _ _ => unfold make_archive
  | |- post get_args _ _ => apply post_get_args
  | |- post (set_file _) _ _ => apply post_set_file
  | |- post (next_credentials _) _ _ => apply post_next_credentials
  | |- post (write_archive _ _ _) _ _ => apply post_write_archive
  | |- post (isdir _) _ _ => apply post_isdir
  | |- post (exists_ _) _ _ => apply post_exists
  | |- then_post _ _ _ _ => unfold then_post at 1; cbn beta iota
  end.

Ltac wp := repeat wp_step.

(** Normalises the observations of a state reached by symbolic execution. *)
Ltac observe :=
  cbn [trace fs console_args generated log fst snd set_file next_credentials
       write_archive keepalive extract verbose file public loop convert] in *;
  rewrite ?closes_snoc, ?lifecycle_snoc, ?mail_steps_snoc, ?persisted_snoc,
    ?path_steps_snoc;
  cbn [is_close is_lifecycle is_mail_step is_save is_archive_or_size
       failed_before_close before_close exit_status];
  rewrite ?Nat.add_0_r, ?app_nil_r, <- ?app_assoc;
  cbn [app].

Ltac split_if :=
  cbn [trace fs console_args generated log fst snd set_file next_credentials
       write_archive keepalive extract verbose file public loop convert];
  match goal with
  | |- post (if ?b then _ else _) _ _ => destruct b eqn:?
  | |- post (match ?x with Some _ => _ | None => _ end) _ _ => destruct x eqn:?
  end.

Ltac wp_all := wp; repeat (split_if; wp).

Ltac not_calm :=
  exfalso;
  match goal with
  | C : calm ?w, H : raises ?w ?h ?e = true |- _ =>
      rewrite (C h e) in H; discriminate H
  end.

Ltac solve_run :=
  first
    [ apply run_satisfies_refl
    | unfold run_satisfies; observe; eexists; split;
      [ reflexivity | repeat constructor; cbn; auto ] ].

(** ** What a run of [register] leaves behind *)

(** [register] leaves the file system, [console_args] and the generator
    alone, and counts as one invocation. *)
Lemma register_frame w c executable_path config st :
  let st' := snd (register w c executable_path config st) in
  console_args st' = console_args st /\
  fs st' = fs st /\
  generated st' = generated st /\
  lifecycle (trace st') = lifecycle (trace st) ++ [EvRegister c].
Proof.
  change (post (register w c executable_path config) st (fun _ st' =>
    console_args st' = console_args st /\
    fs st' = fs st /\
    generated st' = generated st /\
    lifecycle (trace st') = lifecycle (trace st) ++ [EvRegister c])).
  unfold register, register_upload.
  wp_all; observe; auto.
Qed.

(** With no collaborator raising and a usable upload path, [register] runs
    to its end and persists the credentials once. *)
Lemma register_calm w c executable_path config st :
  calm w ->
  upload_path_ok st = true ->
  fst (register w c executable_path config st) = register_end st /\
  persisted (trace (snd (register w c executable_path config st))) =
  persisted (trace st) ++ [EvSaveCredentials c (accountFormat config)].
Proof.
  intros Hcalm Hok.
  change (post (register w c executable_path config) st (fun r st' =>
    r = register_end st /\
    persisted (trace st') =
    persisted (trace st) ++ [EvSaveCredentials c (accountFormat config)])).
  unfold upload_path_ok, fs_exists in Hok.
  unfold register, register_upload, register_end.
  wp; try not_calm. observe.
  destruct (file (console_args st)) as [f|]; wp; observe.
  - match goal with H : fs st f = None |- _ => rewrite H in Hok end.
    discriminate Hok.
  - repeat (split_if; wp); try not_calm; wp_all; observe; auto.
  - wp_all; observe; auto.
Qed.

(** ** The browser session across a run of [register] *)

Lemma register_upload_closes w c st :
  post (register_upload w c) st (fun r st' =>
    closes (trace st') = closes (trace st) /\ failed_before_close r = false).
Proof.
  unfold register_upload.
  wp; repeat (split_if; wp); observe; auto.
Qed.

(** C1, as the code has it: [register] closes the browser session once when
    every step before [browser.close()] went through, and not at all when
    one of them raised (launch, context, page, the two fields, the submit,
    the mailbox login, the poll or the verification): the exception
    propagates past the close. *)
Theorem register_closes_unless_failed_before w c executable_path config st :
  closes (trace (snd (register w c executable_path config st))) =
  closes (trace st) +
  (if failed_before_close (fst (register w c executable_path config st))
   then 0 else 1).
Proof.
  change (post (register w c executable_path config) st (fun r st' =>
    closes (trace st') =
    closes (trace st) + (if failed_before_close r then 0 else 1))).
  unfold register.
  wp; observe; auto.
  eapply post_weaken; [apply register_upload_closes|].
  intros r st' [Hc Hr]. revert Hc; observe; intro Hc.
  destruct r as [[] | x | code]; unfold then_post.
  - wp. destruct (loop (console_args st')) as [n|]; [destruct (n <=? 1)%Z|];
      wp; observe; lia.
  - rewrite Hr. lia.
  - observe. lia.
Qed.

(** C1 fails on the code: the name field raises, the exception leaves
    [register], and the session that was launched is never closed. *)
Lemma register_fill_failure_skips_close :
  fst (register name_field_fails alice chrome plain_config
         (start no_files (cli None None))) =
  Raise (CallFailed (EvTypeName alice)) /\
  closes (trace (snd (register name_field_fails alice chrome plain_config
                        (start no_files (cli None None))))) = 0.
Proof. vm_compute. split; reflexivity. Qed.

(** ** The mailbox poll *)

(** C4, as the code has it: [register] waits one fixed delay of 1.5 s and
    polls the mailbox once.  There is no retry, no backoff and no deadline:
    a run stops before the wait, or at a poll that raised (with the poll's
    own exception), or hands whatever the poll returned, a message or
    nothing, to the verification step. *)
Theorem register_polls_mailbox_once w c executable_path config st :
  let r := register w c executable_path config st in
  let m := mailbox w c in
  let polled := [EvSleep 1500; EvGetMail m] in
  let verified := polled ++ [EvInitialSetup (inbox w m) c] in
  (mail_steps (trace (snd r)) = mail_steps (trace st) /\
   failed_before_close (fst r) = true) \/
  (mail_steps (trace (snd r)) = mail_steps (trace st) ++ polled /\
   fst r = Raise (CallFailed (EvGetMail m))) \/
  (mail_steps (trace (snd r)) = mail_steps (trace st) ++ verified /\
   fst r = Raise (CallFailed (EvInitialSetup (inbox w m) c))) \/
  mail_steps (trace (snd r)) = mail_steps (trace st) ++ verified ++ [EvSleep 500].
Proof.
  intros r m polled verified. subst r m polled verified.
  change (post (register w c executable_path config) st (fun r st' =>
    (mail_steps (trace st') = mail_steps (trace st) /\
     failed_before_close r = true) \/
    (mail_steps (trace st') =
     mail_steps (trace st) ++ [EvSleep 1500; EvGetMail (mailbox w c)] /\
     r = Raise (CallFailed (EvGetMail (mailbox w c)))) \/
    (mail_steps (trace st') =
     mail_steps (trace st) ++
     [EvSleep 1500; EvGetMail (mailbox w c)] ++
     [EvInitialSetup (inbox w (mailbox w c)) c] /\
     r = Raise (CallFailed (EvInitialSetup (inbox w (mailbox w c)) c))) \/
    mail_steps (trace st') =
    mail_steps (trace st) ++
    ([EvSleep 1500; EvGetMail (mailbox w c)] ++
     [EvInitialSetup (inbox w (mailbox w c)) c]) ++ [EvSleep 500])).
  unfold register, register_upload.
  wp_all; observe; auto 6.
Qed.

(** C4 fails on the code: when the mailbox is empty at the one poll,
    [register] neither polls again nor fails, it goes on to the verification
    step with no message and ends as a success; when the one poll raises,
    [register] ends at once with the exception of the poll. *)
Lemma register_goes_on_without_message :
  let st := start no_files (cli None None) in
  (fst (register empty_inbox alice chrome plain_config st) = Exit 0 /\
   mail_steps (trace (snd (register empty_inbox alice chrome plain_config st))) =
   [EvSleep 1500; EvGetMail "alice@mail.test"; EvInitialSetup None alice;
    EvSleep 500]) /\
  (fst (register poll_fails alice chrome plain_config st) =
   Raise (CallFailed (EvGetMail "alice@mail.test")) /\
   mail_steps (trace (snd (register poll_fails alice chrome plain_config st))) =
   [EvSleep 1500; EvGetMail "alice@mail.test"]).
Proof. vm_compute. repeat split; reflexivity. Qed.

(** ** The upload decision *)

(** On a path that exists the code decides as the rule says. *)
Lemma register_upload_existing_path w c f n st :
  file (console_args st) = Some f ->
  fs st f = Some n ->
  trace (snd (register_upload w c st)) =
  trace st ++ [EvGetSize f; EvExists f] ++
  decision_events (decide true (node_size n)) (public (console_args st)) f c.
Proof.
  intros Hfile Hfs.
  change (post (register_upload w c) st (fun _ st' =>
    trace st' =
    trace st ++ [EvGetSize f; EvExists f] ++
    decision_events (decide true (node_size n))
      (public (console_args st)) f c)).
  unfold register_upload. wp. rewrite Hfile. wp; [congruence|].
  match goal with H : fs st f = Some ?k |- _ =>
    assert (k = n) by congruence; subst k end.
  cbn [fs log]. unfold fs_exists, decide. rewrite Hfs.
  cbn [negb orb andb].
  destruct (node_size n <=? 0)%Z eqn:H0;
    [replace (0 <? node_size n)%Z with false by (symmetry; apply Z.ltb_ge; lia)
    |replace (0 <? node_size n)%Z with true by (symmetry; apply Z.ltb_lt; lia)];
    cbn [negb orb andb]; wp; observe; auto.
  destruct (20000000000 <=? node_size n)%Z eqn:H1;
    [replace (node_size n <? 20000000000)%Z with false
       by (symmetry; apply Z.ltb_ge; lia)
    |replace (node_size n <? 20000000000)%Z with true
       by (symmetry; apply Z.ltb_lt; lia)];
    wp; observe; auto.
  destruct (5000000000 <=? node_size n)%Z; wp; observe; auto.
Qed.

(** C2 at a path that does not exist: [os.path.getsize] raises before the
    existence test on the next line is reached, so nothing is rejected and
    nothing is printed; the exception leaves [register]. *)
Theorem register_upload_missing_path_raises w c f st :
  file (console_args st) = Some f ->
  fs st f = None ->
  register_upload w c st = (Raise (FileNotFoundError f), log (EvGetSize f) st).
Proof.
  intros Hfile Hfs.
  unfold register_upload, bind, get_args, getsize.
  rewrite Hfile, Hfs. reflexivity.
Qed.

Lemma register_upload_missing_path_raises_witness :
  register_upload quiet_world alice
    (start no_files (cli (Some "missing.bin") None)) =
  (Raise (FileNotFoundError "missing.bin"),
   log (EvGetSize "missing.bin")
     (start no_files (cli (Some "missing.bin") None))).
Proof.
  apply (register_upload_missing_path_raises quiet_world alice "missing.bin"
           (start no_files (cli (Some "missing.bin") None)));
    reflexivity.
Defined.

(** C6 at a path that does not exist: the account is verified and its
    credentials are persisted, and then [register] ends with the exception
    of [os.path.getsize] instead of skipping the upload. *)
Theorem register_missing_upload_path_fails_after_saving
    w c executable_path config f st :
  calm w ->
  file (console_args st) = Some f ->
  fs st f = None ->
  fst (register w c executable_path config st) =
  Raise (FileNotFoundError f) /\
  persisted (trace (snd (register w c executable_path config st))) =
  persisted (trace st) ++ [EvSaveCredentials c (accountFormat config)].
Proof.
  intros Hcalm Hfile Hfs.
  change (post (register w c executable_path config) st (fun r st' =>
    r = Raise (FileNotFoundError f) /\
    persisted (trace st') =
    persisted (trace st) ++ [EvSaveCredentials c (accountFormat config)])).
  unfold register, register_upload.
  wp; try not_calm. observe. rewrite Hfile. wp; observe.
  - auto.
  - congruence.
Qed.

Lemma register_missing_upload_path_fails_after_saving_witness :
  fst (register quiet_world alice chrome plain_config
         (start no_files (cli (Some "missing.bin") None))) =
  Raise (FileNotFoundError "missing.bin") /\
  persisted (trace (snd (register quiet_world alice chrome plain_config
                           (start no_files (cli (Some "missing.bin") None))))) =
  [] ++ [EvSaveCredentials alice "{email}:{password}"].
Proof.
  apply (register_missing_upload_path_fails_after_saving quiet_world alice
           chrome plain_config "missing.bin"
           (start no_files (cli (Some "missing.bin") None))).
  - intros h e. reflexivity.
  - reflexivity.
  - reflexivity.
Defined.

(** ** Archiving the upload path *)

(** C9: on a path that is not a directory [archive_folder] returns the path
    it was given; the only thing it does is look at the path. *)
Theorem archive_folder_keeps_other_paths w folder_path st :
  fs_isdir (fs st) folder_path = false ->
  archive_folder w folder_path st = (Ret folder_path, log (EvIsDir folder_path) st).
Proof.
  intro H. unfold archive_folder, bind, isdir. rewrite H. reflexivity.
Qed.

Lemma archive_folder_keeps_other_paths_witness :
  archive_folder quiet_world "notes.txt" (start photos_fs (cli None None)) =
  (Ret "notes.txt", log (EvIsDir "notes.txt") (start photos_fs (cli None None)))
  /\
  archive_folder quiet_world "missing.bin" (start photos_fs (cli None None)) =
  (Ret "missing.bin",
   log (EvIsDir "missing.bin") (start photos_fs (cli None None))).
Proof.
  split.
  - apply (archive_folder_keeps_other_paths quiet_world "notes.txt"
             (start photos_fs (cli None None))).
    reflexivity.
  - apply (archive_folder_keeps_other_paths quiet_world "missing.bin"
             (start photos_fs (cli None None))).
    reflexivity.
Defined.

(** On a directory, [archive_folder] writes [folder_path + ".zip"] and
    returns [folder_path.rstrip("/\\") + ".zip"]. *)
Lemma archive_folder_directory w folder_path st :
  fs_isdir (fs st) folder_path = true ->
  raises w (trace st ++ [EvIsDir folder_path])
    (EvMakeArchive folder_path folder_path) = false ->
  fst (archive_folder w folder_path st) =
  Ret (rstrip "/\" folder_path ++ ".zip")%string /\
  fs (snd (archive_folder w folder_path st)) =
  write_file (folder_path ++ ".zip")%string (archive_size w folder_path) (fs st).
Proof.
  intros Hd Hr.
  unfold archive_folder, bind, isdir, make_archive, bind, call, write_archive.
  rewrite Hd. cbn [negb trace log]. rewrite Hr. split; reflexivity.
Qed.

(** C5 at a directory named with a trailing separator: the archive is
    written inside the directory, the path returned names no file, and the
    size check of [register] raises on it. *)
Theorem archive_folder_trailing_separator :
  let st := start photos_fs (cli (Some "photos/") None) in
  fst (archive_folder quiet_world "photos/" st) = Ret "photos.zip" /\
  fs (snd (archive_folder quiet_world "photos/" st)) "photos/.zip" =
  Some (File 1024) /\
  fs (snd (archive_folder quiet_world "photos/" st)) "photos.zip" = None /\
  fst (main quiet_world st) = Raise (FileNotFoundError "photos.zip") /\
  path_steps (trace (snd (main quiet_world st))) =
  [EvIsDir "photos/"; EvIsDir "photos/"; EvMakeArchive "photos/" "photos/";
   EvGetSize "photos.zip"].
Proof. vm_compute. repeat split; reflexivity. Qed.

(** A directory named without a trailing separator, in a single-shot run:
    the archive is written where the returned path says, [console_args.file]
    is replaced by it, and the checks of [register] are made on it. *)
Example single_shot_checks_the_archive :
  let st := start photos_fs (cli (Some "photos") None) in
  fst (main quiet_world st) = Exit 0 /\
  file (console_args (snd (main quiet_world st))) = Some "photos.zip" /\
  path_steps (trace (snd (main quiet_world st))) =
  [EvIsDir "photos"; EvIsDir "photos"; EvMakeArchive "photos" "photos";
   EvGetSize "photos.zip"; EvExists "photos.zip"].
Proof. vm_compute. repeat split; reflexivity. Qed.

(** The same directory in a batch of two: nothing is archived and the
    checks are made on the directory itself. *)
Example batch_checks_the_directory :
  let st := start photos_fs (cli (Some "photos") (Some 2%Z)) in
  fst (main quiet_world st) = Ret tt /\
  path_steps (trace (snd (main quiet_world st))) =
  [EvGetSize "photos"; EvExists "photos"; EvGetSize "photos"; EvExists "photos"].
Proof. vm_compute. repeat split; reflexivity. Qed.

(** ** The batch runner *)

Lemma loop_body_calm w n executable_path config i st :
  calm w ->
  (1 < n)%Z ->
  loop (console_args st) = Some n ->
  upload_path_ok st = true ->
  post (p_print (LoopProgress (i + 1) n) OKGREEN ;;
        call w EvClearTmp ;;
        credentials <- generate_mail w ;;
        register w credentials executable_path config) st
    (fun r st' =>
       r = Ret tt /\
       console_args st' = console_args st /\
       fs st' = fs st /\
       generated st' = S (generated st) /\
       lifecycle (trace st') =
       lifecycle (trace st) ++ iteration (fresh_credentials w (generated st))).
Proof.
  intros Hcalm Hn Hloop Hok.
  wp; try not_calm.
  match goal with |- post (register _ ?c _ _) ?s _ =>
    unfold post;
    destruct (register_frame w c executable_path config s) as (Ha & Hf & Hg & Hl);
    destruct (register_calm w c executable_path config s Hcalm) as (Hr & _)
  end.
  - unfold upload_path_ok in *. observe. exact Hok.
  - rewrite Hr, Ha, Hf, Hg, Hl. unfold register_end. observe. rewrite Hloop.
    replace (n <=? 1)%Z with false by (symmetry; apply Z.leb_gt; lia).
    unfold iteration. auto.
Qed.

Lemma for_each_iterations w n executable_path config :
  calm w ->
  (1 < n)%Z ->
  forall k a st,
    loop (console_args st) = Some n ->
    upload_path_ok st = true ->
    post (for_each (map Z.of_nat (seq a k)) (fun i =>
            p_print (LoopProgress (i + 1) n) OKGREEN ;;
            call w EvClearTmp ;;
            credentials <- generate_mail w ;;
            register w credentials executable_path config)) st
      (fun r st' =>
         r = Ret tt /\
         lifecycle (trace st') =
         lifecycle (trace st) ++
         flat_map iteration (map (fresh_credentials w) (seq (generated st) k))).
Proof.
  intros Hcalm Hn. induction k as [|k IH]; intros a st Hloop Hok.
  - cbn [seq map for_each flat_map]. wp. rewrite app_nil_r. auto.
  - cbn [seq map for_each flat_map]. apply post_bind.
    eapply post_weaken;
      [apply (loop_body_calm w n executable_path config (Z.of_nat a) st);
       assumption|].
    intros r st1 (-> & Ha & Hf & Hg & Hl). unfold then_post.
    eapply post_weaken; [apply (IH (S a) st1)|].
    + rewrite Ha. exact Hloop.
    + unfold upload_path_ok in *. rewrite Ha, Hf. exact Hok.
    + intros r st2 (-> & Hl2). split; [reflexivity|].
      rewrite Hl2, Hl, Hg, <- app_assoc. reflexivity.
Qed.





(** ** Setting up *)

(** C7: when the configuration names no browser and the path the user types
    does not exist, the process ends with status 1 and nothing of a
    provisioning attempt has happened: no reset of the working directory,
    no identity generated, no invocation of [register]. *)
Theorem main_stops_without_browser w st :
  convert (console_args st) = false ->
  match stored_config w with
  | None => True
  | Some c => executablePath c = ""
  end ->
  fs_exists (fs st) (typed_path w) = false ->
  exit_status (fst (main w st)) = 1%Z /\
  lifecycle (trace (snd (main w st))) = lifecycle (trace st).
Proof.
  intros Hconv Hcfg Hpath.
  change (post (main w) st (fun r st' =>
    exit_status r = 1%Z /\ lifecycle (trace st') = lifecycle (trace st))).
  unfold main. wp; observe; auto.
  rewrite Hconv. wp. unfold setup. wp; observe; auto.
  destruct (stored_config w) as [c|]; wp; observe; auto.
  - rewrite Hcfg. cbn [String.eqb]. wp; observe; auto.
    rewrite Hpath. wp. observe. auto.
  - cbn [String.eqb]. wp; observe; auto.
    rewrite Hpath. wp. observe. auto.
Qed.

Lemma main_stops_without_browser_witness :
  exit_status (fst (main no_browser (start no_files (cli None (Some 5%Z))))) =
  1%Z /\
  lifecycle (trace (snd (main no_browser (start no_files (cli None (Some 5%Z))))))
  = lifecycle [].
Proof.
  apply (main_stops_without_browser no_browser
           (start no_files (cli None (Some 5%Z)))).
  - reflexivity.
  - exact I.
  - reflexivity.
Defined.

(** ** Batch runs and single-shot runs *)

Lemma register_checks_given_path w c executable_path config st :
  run_satisfies (checks_given_path (console_args st)) st
    (snd (register w c executable_path config st)).
Proof.
  change (post (register w c executable_path config) st (fun _ st' =>
    run_satisfies (checks_given_path (console_args st)) st st')).
  unfold register, register_upload.
  wp_all; solve_run.
Qed.

Lemma for_each_checks_given_path w n executable_path config l :
  forall st,
    post (for_each l (fun i =>
            p_print (LoopProgress (i + 1) n) OKGREEN ;;
            call w EvClearTmp ;;
            credentials <- generate_mail w ;;
            register w credentials executable_path config)) st
      (fun _ st' =>
         console_args st' = console_args st /\
         fs st' = fs st /\
         run_satisfies (checks_given_path (console_args st)) st st').
Proof.
  induction l as [|i l IH]; intro st; cbn [for_each].
  - wp. repeat split. solve_run.
  - apply post_bind.
    assert (Hbody : post (p_print (LoopProgress (i + 1) n) OKGREEN ;;
                          call w EvClearTmp ;;
                          credentials <- generate_mail w ;;
                          register w credentials executable_path config) st
              (fun _ st' =>
                 console_args st' = console_args st /\
                 fs st' = fs st /\
                 run_satisfies (checks_given_path (console_args st)) st st')).
    { wp; try (repeat split; solve_run).
      match goal with |- post (register _ ?c _ _) ?s _ =>
        unfold post;
        destruct (register_frame w c executable_path config s) as (Ha & Hf & _);
        pose proof (register_checks_given_path w c executable_path config s)
          as Hrun
      end.
      rewrite Ha, Hf. repeat split.
      eapply run_satisfies_trans; [|exact Hrun]. solve_run. }
    eapply post_weaken; [exact Hbody|].
    intros r st1 (Ha & Hf & Hrun). unfold then_post.
    destruct r as [[] | x | code]; [|repeat split; assumption ..].
    eapply post_weaken; [apply IH|].
    intros r st2 (Ha2 & Hf2 & Hrun2). rewrite Ha in Ha2, Hrun2.
    repeat split; try congruence.
    eapply run_satisfies_trans; eassumption.
Qed.

Lemma main_batch_run w n st :
  loop (console_args st) = Some n ->
  (1 < n)%Z ->
  batch_safe st (main w st).
Proof.
  intros Hloop Hn.
  change (post (main w) st (fun _ st' =>
    console_args st' = console_args st /\
    fs st' = fs st /\
    run_satisfies (checks_given_path (console_args st)) st st')).
  assert (Hlt : (1 <? n)%Z = true) by (apply Z.ltb_lt; exact Hn).
  unfold main, setup.
  wp; try (repeat split; solve_run).
  repeat
    (split_if; wp; rewrite ?Hloop, ?Hlt; try (repeat split; solve_run)).
  all: unfold loop_registrations;
    (eapply post_weaken; [apply for_each_checks_given_path|]);
    intros r st' (Ha & Hf & Hrun); revert Ha Hf Hrun; observe;
    intros Ha Hf Hrun; repeat split; try assumption;
    (eapply run_satisfies_trans; [|exact Hrun]); solve_run.
Qed.

(** Outside a batch, [register] ends the process itself. *)
Lemma register_single_shot w c executable_path config st :
  match loop (console_args st) with
  | Some n => (1 <? n)%Z = false
  | None => True
  end ->
  match fst (register w c executable_path config st) with
  | Ret _ => False
  | Raise _ => True
  | Exit code =>
      code = 0%Z /\
      persisted (trace (snd (register w c executable_path config st))) =
      persisted (trace st) ++ [EvSaveCredentials c (accountFormat config)]
  end.
Proof.
  intro Hloop.
  change (post (register w c executable_path config) st (fun r st' =>
    match r with
    | Ret _ => False
    | Raise _ => True
    | Exit code =>
        code = 0%Z /\
        persisted (trace st') =
        persisted (trace st) ++ [EvSaveCredentials c (accountFormat config)]
    end)).
  unfold register, register_upload.
  destruct (loop (console_args st)) as [n|] eqn:Hl.
  - assert (Hle : (n <=? 1)%Z = true)
      by (rewrite Z.leb_antisym, Hloop; reflexivity).
    wp; auto. observe.
    destruct (file (console_args st)); wp; auto;
      repeat (observe; rewrite ?Hl, ?Hle; wp; auto; split_if; wp; auto);
      observe; rewrite ?Hl, ?Hle; wp; observe; auto.
  - wp; auto. observe.
    destruct (file (console_args st)); wp; auto;
      repeat (observe; rewrite ?Hl; wp; auto; split_if; wp; auto);
      observe; rewrite ?Hl; wp; observe; auto.
Qed.

Lemma single_shot_outcome w executable_path config st :
  match loop (console_args st) with
  | Some n => (1 <? n)%Z = false
  | None => True
  end ->
  post (single_shot w executable_path config) st (fun r st' =>
    match r with
    | Ret _ => False
    | Raise _ => True
    | Exit code =>
        code = 0%Z /\
        lifecycle (trace st') =
        lifecycle (trace st) ++ iteration (fresh_credentials w (generated st)) /\
        persisted (trace st') =
        persisted (trace st) ++
        [EvSaveCredentials (fresh_credentials w (generated st))
           (accountFormat config)]
    end).
Proof.
  intro Hloop.
  unfold single_shot, archive_folder.
  wp; auto. repeat (split_if; wp; auto).
  all: match goal with |- post (register _ ?c _ ?cfg) ?s _ =>
    unfold post;
    pose proof (register_single_shot w c executable_path cfg s) as Hr;
    destruct (register_frame w c executable_path cfg s) as (_ & _ & _ & Hlc);
    revert Hr Hlc; observe; intros Hr Hlc; specialize (Hr Hloop)
  end.
  all: match goal with |- match ?r with _ => _ end => destruct r end; auto.
  all: destruct Hr as (-> & Hp); repeat split; auto.
Qed.

Lemma main_single_shot_outcome w st :
  convert (console_args st) = false ->
  extract (console_args st) = false ->
  keepalive (console_args st) = false ->
  match loop (console_args st) with
  | Some n => (1 <? n)%Z = false
  | None => True
  end ->
  single_shot_end w st (main w st).
Proof.
  intros Hconv Hext Hka Hloop.
  change (post (main w) st (fun r st' =>
    let c := fresh_credentials w (generated st) in
    match r with
    | Ret _ => False
    | Raise _ => True
    | Exit code =>
        (code = 1%Z /\ lifecycle (trace st') = lifecycle (trace st)) \/
        (code = 0%Z /\
         lifecycle (trace st') = lifecycle (trace st) ++ iteration c /\
         persisted (trace st') =
         persisted (trace st) ++
         [EvSaveCredentials c (accountFormat (config_in_use w))])
    end)).
  cbv zeta. unfold main, setup, config_in_use.
  wp; auto. observe. rewrite Hconv, Hext, Hka. wp; auto. observe.
  destruct (stored_config w) as [cfg|]; wp; auto;
    repeat (split_if; wp; auto); observe; auto; try congruence.
  all: (eapply post_weaken;
        [ apply single_shot_outcome; observe;
          match goal with
          | H : loop (console_args _) = _ |- _ => rewrite H; auto
          end
        | ]);
    intros r st'; observe; destruct r; auto;
    intros (-> & Hl & Hp); right; auto.
Qed.

(** ** Reading a credential record back *)

Section Parser.

Local Open Scope string_scope.


Lemma append_assoc (a b c : string) : (a ++ b) ++ c = a ++ (b ++ c).
Proof. induction a as [|x a IH]; simpl; [reflexivity | rewrite IH; reflexivity]. Qed.

Lemma append_empty_r (a : string) : a ++ "" = a.
Proof. induction a as [|x a IH]; simpl; [reflexivity | rewrite IH; reflexivity]. Qed.

Lemma strip_prefix_append p r : strip_prefix p (p ++ r) = Some r.
Proof.
  induction p as [|a p IH]; simpl; [reflexivity|].
  rewrite Ascii.eqb_refl. exact IH.
Qed.

Lemma line_append v t :
  one_line v = true -> ends_line t = true -> line (v ++ t) = v.
Proof.
  intros Hv Ht. induction v as [|c v IH]; simpl in *.
  - destruct t as [|d t]; simpl in *; [reflexivity | rewrite Ht; reflexivity].
  - apply andb_prop in Hv. destruct Hv as (Hc & Hv).
    apply negb_true_iff in Hc. rewrite Hc, (IH Hv). reflexivity.
Qed.

(** The pattern matches where the label and a readable field stand. *)
Lemma search_here label v t :
  readable v = true -> ends_line t = true ->
  search label (label ++ v ++ t) = Some v.
Proof.
  intros Hv Ht. apply andb_prop in Hv. destruct Hv as (Hne & Hv).
  assert (Hm : match_here label (label ++ v ++ t) = Some v).
  { unfold match_here. rewrite strip_prefix_append, (line_append v t Hv Ht).
    destruct v; [discriminate | reflexivity]. }
  destruct (label ++ v ++ t); simpl; rewrite Hm; reflexivity.
Qed.

(** A label that is a single line and starts a match inside [x ++ newline ++ y]
    at the head of [x] is wholly inside [x]. *)
Lemma strip_prefix_before_newline label x y r :
  one_line label = true ->
  strip_prefix label (x ++ String newline y) = Some r ->
  exists r', strip_prefix label x = Some r'.
Proof.
  revert x. induction label as [|a label IH]; intros x Hl H; simpl in *.
  - eauto.
  - apply andb_prop in Hl. destruct Hl as (Ha & Hl).
    destruct x as [|b x]; simpl in *.
    + apply negb_true_iff in Ha. rewrite Ha in H. discriminate.
    + destruct (Ascii.eqb a b); [eauto | discriminate].
Qed.

(** The search passes over a line that does not hold the label. *)
Lemma search_skip label x y :
  readable label = true ->
  contains label x = false ->
  search label (x ++ String newline y) = search label y.
Proof.
  intros Hl Hx. apply andb_prop in Hl. destruct Hl as (Hne & Hl).
  induction x as [|b x IH].
  - simpl. unfold match_here.
    destruct label as [|a label]; [discriminate|].
    simpl in Hl. apply andb_prop in Hl. destruct Hl as (Ha & _).
    apply negb_true_iff in Ha. cbn [strip_prefix]. rewrite Ha.
    destruct y; reflexivity.
  - cbn [contains] in Hx.
    destruct (strip_prefix label (String b x)) eqn:Hs; [discriminate|].
    cbn [append search]. unfold match_here at 1.
    destruct (strip_prefix label (String b (x ++ String newline y))) eqn:Hp.
    + destruct (strip_prefix_before_newline label (String b x) y s Hl Hp)
        as (r' & Hr').
      rewrite Hs in Hr'. discriminate.
    + apply IH. exact Hx.
Qed.

(** The record of the known template, label by label. *)
Lemma format_record_known trailer c :
  format_record (known_template trailer) c =
  "Email: " ++ email c ++
  String newline ("Email Password: " ++ emailPassword c ++
  String newline ("Mega Password: " ++ password c ++ trailer)).
Proof.
  unfold format_record, known_template. cbn [fold_right fill].
  rewrite append_empty_r. reflexivity.
Qed.

(** C8, as the parser has it: a record of the known template reads back to
    the email, the email password and the account password it was made of
    when each of them is a non-empty single line and none holds the label
    of a later field. *)
Theorem parse_account_reads_back trailer c :
  parseable c = true ->
  ends_line trailer = true ->
  parse_account (format_record (known_template trailer) c) =
  Some [("email", email c);
        ("emailPassword", emailPassword c);
        ("password", password c)].
Proof.
  unfold parseable. intros Hc Ht.
  apply andb_prop in Hc. destruct Hc as (Hc & Hmp).
  apply andb_prop in Hc. destruct Hc as (Hc & Hem).
  apply andb_prop in Hc. destruct Hc as (Hc & Hep).
  apply andb_prop in Hc. destruct Hc as (Hc & Hp).
  apply andb_prop in Hc. destruct Hc as (He & Hm).
  apply negb_true_iff in Hmp, Hem, Hep.
  rewrite format_record_known. unfold parse_account.
  set (mega := "Mega Password: " ++ password c ++ trailer).
  set (mail := "Email Password: " ++ emailPassword c ++ String newline mega).
  assert (Hs1 : search "Email: " ("Email: " ++ email c ++ String newline mail)
                = Some (email c))
    by (apply search_here; [exact He | reflexivity]).
  assert (Hs2 : search "Email Password: "
                  ("Email: " ++ email c ++ String newline mail)
                = Some (emailPassword c)).
  { rewrite <- append_assoc, search_skip; [|reflexivity|exact Hep].
    apply search_here; [exact Hm | reflexivity]. }
  assert (Hs3 : search "Mega Password: "
                  ("Email: " ++ email c ++ String newline mail)
                = Some (password c)).
  { rewrite <- append_assoc, search_skip; [|reflexivity|exact Hem].
    unfold mail.
    rewrite <- append_assoc, search_skip; [|reflexivity|exact Hmp].
    apply search_here; [exact Hp | exact Ht]. }
  rewrite Hs1, Hs2, Hs3. reflexivity.
Qed.

Lemma parse_account_reads_back_witness :
  parse_account
    (format_record
       (known_template (String newline "-------------------")) alice) =
  Some [("email", "alice@mail.test");
        ("emailPassword", "mailpw");
        ("password", "megapw")].
Proof.
  apply (parse_account_reads_back (String newline "-------------------") alice);
    reflexivity.
Defined.

(** C8 fails on the parser: with a blank email password the line of that
    field is the bare label, [(.+)] finds nothing to match, and
    [parse_account] returns [None] for the record. *)
Lemma parse_account_rejects_blank_field :
  parse_account (format_record (known_template "") blank_mail_password) = None.
Proof. vm_compute. reflexivity. Qed.

End Parser.

(** * More of [main.py] *)

(** ** [setup] and the modes of [__main__] *)

Lemma milestones_snoc l e :
  milestones (l ++ [e]) = milestones l ++ (if is_milestone e then [e] else []).
Proof. apply filter_snoc. Qed.

Lemma uploads_snoc l e :
  uploads (l ++ [e]) = uploads l ++ (if is_upload e then [e] else []).
Proof. apply filter_snoc. Qed.

Lemma warnings_snoc l e :
  warnings (l ++ [e]) = warnings l ++ (if is_warning e then [e] else []).
Proof. apply filter_snoc. Qed.

Lemma services_snoc l e :
  services (l ++ [e]) = services l ++ (if is_service e then [e] else []).
Proof. apply filter_snoc. Qed.

Lemma setup_steps_snoc l e :
  setup_steps (l ++ [e]) = setup_steps l ++ (if is_setup_step e then [e] else []).
Proof. apply filter_snoc. Qed.

(** [observe], with the further observations. *)
Ltac observe_more :=
  cbn [trace fs console_args generated log fst snd set_file next_credentials
       write_archive keepalive extract verbose file public loop convert] in *;
  rewrite ?closes_snoc, ?lifecycle_snoc, ?mail_steps_snoc, ?persisted_snoc,
    ?path_steps_snoc, ?milestones_snoc, ?uploads_snoc, ?warnings_snoc,
    ?services_snoc, ?setup_steps_snoc;
  cbn [is_close is_lifecycle is_mail_step is_save is_archive_or_size
       is_milestone is_upload is_warning is_service is_setup_step
       failed_before_close before_close exit_status];
  rewrite ?Nat.add_0_r, ?app_nil_r, <- ?app_assoc;
  cbn [app].

(** X1: a path [setup] returns is never empty (no file has the empty path),
    so the test of [__main__] on it never fires. *)
Theorem setup_returns_a_path w st executable_path config :
  fs st "" = None ->
  fst (setup w st) = Ret (executable_path, config) ->
  executable_path <> "".
Proof.
  intros Hfs.
  change (post (setup w) st (fun r _ =>
    r = Ret (executable_path, config) -> executable_path <> "")).
  assert (Htyped : fs_exists (fs st) (typed_path w) = true -> typed_path w <> "").
  { unfold fs_exists. intros H E. rewrite E, Hfs in H. discriminate. }
  unfold setup.
  wp; try discriminate.
  destruct (stored_config w) as [c|]; wp; try discriminate.
  - destruct (String.eqb (executablePath c) "") eqn:He; wp; try discriminate.
    + observe. destruct (fs_exists (fs st) (typed_path w)) eqn:Hx; wp;
        try discriminate.
      intro Eq. inversion Eq. subst. auto.
    + intro Eq. inversion Eq. subst. apply String.eqb_neq. exact He.
  - cbn [String.eqb]. wp; try discriminate.
    observe. destruct (fs_exists (fs st) (typed_path w)) eqn:Hx; wp;
      try discriminate.
    intro Eq. inversion Eq. subst. auto.
Qed.

Lemma setup_returns_a_path_witness : chrome <> "".
Proof.
  apply (setup_returns_a_path quiet_world (start no_files (cli None None))
           chrome plain_config); reflexivity.
Defined.

(** X2: a path stored in the configuration is handed on as it is: no
    prompt, no look at the file system, nothing written. *)
Theorem setup_trusts_the_stored_path w st c :
  stored_config w = Some c ->
  executablePath c <> "" ->
  raises w (trace st) EvReadConfig = false ->
  setup w st = (Ret (executablePath c, c), log EvReadConfig st).
Proof.
  intros Hc Hp Hr. apply String.eqb_neq in Hp.
  unfold setup, read_config, bind, call, ret. rewrite Hr, Hc, Hp. reflexivity.
Qed.

Lemma setup_trusts_the_stored_path_witness :
  setup quiet_world (start no_files (cli None None)) =
  (Ret (chrome, plain_config), log EvReadConfig (start no_files (cli None None))).
Proof.
  apply (setup_trusts_the_stored_path quiet_world
           (start no_files (cli None None)) plain_config).
  - reflexivity.
  - discriminate.
  - reflexivity.
Defined.

(** X3: without a configuration file, [setup] writes the default one, reads
    it, and asks for a path whatever browser the default names; the path
    typed is stored and returned when it exists. *)
Theorem setup_first_run_asks w st :
  calm w ->
  stored_config w = None ->
  fs_exists (fs st) (typed_path w) = true ->
  fst (setup w st) = Ret (typed_path w, default_config w) /\
  trace (snd (setup w st)) =
  trace st ++
  [EvReadConfig; EvWriteDefaultConfig; EvConcreteReadConfig;
   EvPrint FailedToFindBrowser FAIL; EvInput; EvExists (typed_path w);
   EvPrint FoundExecutable OKGREEN;
   EvWriteConfig "executablePath" (typed_path w)].
Proof.
  intros Hcalm Hc Hx.
  change (post (setup w) st (fun r st' =>
    r = Ret (typed_path w, default_config w) /\
    trace st' =
    trace st ++
    [EvReadConfig; EvWriteDefaultConfig; EvConcreteReadConfig;
     EvPrint FailedToFindBrowser FAIL; EvInput; EvExists (typed_path w);
     EvPrint FoundExecutable OKGREEN;
     EvWriteConfig "executablePath" (typed_path w)])).
  unfold setup. wp; try not_calm. rewrite Hc. wp; try not_calm.
  cbn [String.eqb]. wp; try not_calm. observe. rewrite Hx. wp; try not_calm.
  observe. auto.
Qed.

Lemma setup_first_run_asks_witness :
  fst (setup first_run (start photos_fs (cli None None))) =
  Ret ("notes.txt", plain_config) /\
  trace (snd (setup first_run (start photos_fs (cli None None)))) =
  [] ++
  [EvReadConfig; EvWriteDefaultConfig; EvConcreteReadConfig;
   EvPrint FailedToFindBrowser FAIL; EvInput; EvExists "notes.txt";
   EvPrint FoundExecutable OKGREEN; EvWriteConfig "executablePath" "notes.txt"].
Proof.
  apply (setup_first_run_asks first_run (start photos_fs (cli None None))).
  - intros h e. reflexivity.
  - reflexivity.
  - reflexivity.
Defined.

Ltac solve_starts :=
  unfold starts;
  first
    [ exists []; split;
      [ rewrite app_nil_r; reflexivity | eexists; cbn [app]; reflexivity ]
    | eexists; split; [ reflexivity | eexists; cbn [app]; reflexivity ] ].

(** X4: with [--convert] the process clears the console, checks for updates,
    converts and exits with status 0, or stops at the one of these three
    calls that raises; it reads no configuration, asks for nothing and
    provisions nothing, whatever the other options are.  It exits with
    status 0 only after [convert_accounts] was called, and it does when
    nothing raises. *)
Theorem main_convert_only w st :
  convert (console_args st) = true ->
  (exists new,
     trace (snd (main w st)) = trace st ++ new /\
     starts new convert_steps /\
     match fst (main w st) with
     | Ret _ => False
     | Exit code => code = 0%Z /\ new = convert_steps
     | Raise x => exists before e, new = before ++ [e] /\ x = CallFailed e
     end) /\
  (calm w ->
   fst (main w st) = Exit 0%Z /\
   trace (snd (main w st)) = trace st ++ convert_steps).
Proof.
  intro Hconv.
  change (post (main w) st (fun r st' =>
    (exists new,
       trace st' = trace st ++ new /\
       starts new convert_steps /\
       match r with
       | Ret _ => False
       | Exit code => code = 0%Z /\ new = convert_steps
       | Raise x => exists before e, new = before ++ [e] /\ x = CallFailed e
       end) /\
    (calm w -> r = Exit 0%Z /\ trace st' = trace st ++ convert_steps))).
  unfold main, convert_steps.
  wp; observe_more; rewrite ?Hconv; wp; observe_more.
  all: split; [|intro; try not_calm; auto].
  all: eexists; refine (conj eq_refl (conj _ _));
    [unfold starts; eexists; cbn [app]; reflexivity|].
  - exists [], EvClearConsole. split; reflexivity.
  - exists [EvClearConsole], EvCheckForUpdates. split; reflexivity.
  - exists [EvClearConsole; EvCheckForUpdates], EvConvertAccounts.
    split; reflexivity.
  - split; reflexivity.
Qed.

Lemma main_convert_only_witness :
  let st := start no_files (mkArgs true true true (Some "photos") true
                              (Some 5%Z) true) in
  (exists new,
     trace (snd (main no_browser st)) = trace st ++ new /\
     starts new convert_steps /\
     match fst (main no_browser st) with
     | Ret _ => False
     | Exit code => code = 0%Z /\ new = convert_steps
     | Raise x => exists before e, new = before ++ [e] /\ x = CallFailed e
     end) /\
  (calm no_browser ->
   fst (main no_browser st) = Exit 0%Z /\
   trace (snd (main no_browser st)) = trace st ++ convert_steps).
Proof.
  apply (main_convert_only no_browser
           (start no_files (mkArgs true true true (Some "photos") true
                              (Some 5%Z) true))).
  reflexivity.
Defined.

(** X5: with [--extract] (and no [--convert]) the only service called is
    [extract_credentials], with the record template of the configuration;
    [--keepalive], [--loop] and [--file] are ignored and nothing is
    provisioned. *)
Theorem main_extract_only w st :
  convert (console_args st) = false ->
  extract (console_args st) = true ->
  lifecycle (trace (snd (main w st))) = lifecycle (trace st) /\
  (exists new,
     services (trace (snd (main w st))) = services (trace st) ++ new /\
     starts new [EvExtractCredentials (accountFormat (config_in_use w))]) /\
  (calm w -> browser_available w st = true ->
   fst (main w st) = Ret tt /\
   services (trace (snd (main w st))) =
   services (trace st) ++
   [EvExtractCredentials (accountFormat (config_in_use w))]).
Proof.
  intros Hconv Hext.
  change (post (main w) st (fun r st' =>
    lifecycle (trace st') = lifecycle (trace st) /\
    (exists new,
       services (trace st') = services (trace st) ++ new /\
       starts new [EvExtractCredentials (accountFormat (config_in_use w))]) /\
    (calm w -> browser_available w st = true ->
     r = Ret tt /\
     services (trace st') =
     services (trace st) ++
     [EvExtractCredentials (accountFormat (config_in_use w))]))).
  unfold main, setup, config_in_use, browser_available.
  wp; observe_more; rewrite ?Hconv, ?Hext; wp; observe_more.
  4: destruct (stored_config w) as [c|]; wp; observe_more;
       repeat (split_if; wp; observe_more).
  all: split; [reflexivity | split; [solve_starts |]].
  all: intros Hcalm Hb; try not_calm; auto.
  all: try (rewrite andb_false_r in Hb; discriminate Hb).
  all: try discriminate Hb.
  all: try congruence.
  all: try (apply andb_prop in Hb; destruct Hb as (_ & Hb);
            apply negb_true_iff in Hb; congruence).
Qed.

Lemma main_extract_only_witness :
  let st := start photos_fs (mkArgs true true true (Some "photos") false
                               (Some 5%Z) false) in
  lifecycle (trace (snd (main quiet_world st))) = lifecycle (trace st) /\
  (exists new,
     services (trace (snd (main quiet_world st))) = services (trace st) ++ new /\
     starts new [EvExtractCredentials (accountFormat (config_in_use quiet_world))])
  /\
  (calm quiet_world -> browser_available quiet_world st = true ->
   fst (main quiet_world st) = Ret tt /\
   services (trace (snd (main quiet_world st))) =
   services (trace st) ++
   [EvExtractCredentials (accountFormat (config_in_use quiet_world))]).
Proof.
  apply (main_extract_only quiet_world
           (start photos_fs (mkArgs true true true (Some "photos") false
                               (Some 5%Z) false)));
    reflexivity.
Defined.

(** X6: with [--keepalive] (and neither [--convert] nor [--extract]) the
    only service called is [keepalive], with the verbose flag; [--loop] and
    [--file] are ignored and nothing is provisioned. *)
Theorem main_keepalive_only w st :
  convert (console_args st) = false ->
  extract (console_args st) = false ->
  keepalive (console_args st) = true ->
  lifecycle (trace (snd (main w st))) = lifecycle (trace st) /\
  (exists new,
     services (trace (snd (main w st))) = services (trace st) ++ new /\
     starts new [EvKeepalive (verbose (console_args st))]) /\
  (calm w -> browser_available w st = true ->
   fst (main w st) = Ret tt /\
   services (trace (snd (main w st))) =
   services (trace st) ++ [EvKeepalive (verbose (console_args st))]).
Proof.
  intros Hconv Hext Hka.
  change (post (main w) st (fun r st' =>
    lifecycle (trace st') = lifecycle (trace st) /\
    (exists new,
       services (trace st') = services (trace st) ++ new /\
       starts new [EvKeepalive (verbose (console_args st))]) /\
    (calm w -> browser_available w st = true ->
     r = Ret tt /\
     services (trace st') =
     services (trace st) ++ [EvKeepalive (verbose (console_args st))]))).
  unfold main, setup, browser_available.
  wp; observe_more; rewrite ?Hconv, ?Hext, ?Hka; wp; observe_more.
  4: destruct (stored_config w) as [c|]; wp; observe_more;
       repeat (split_if; wp; observe_more).
  all: split; [reflexivity | split; [solve_starts |]].
  all: intros Hcalm Hb; try not_calm; auto.
  all: try (rewrite andb_false_r in Hb; discriminate Hb).
  all: try discriminate Hb.
  all: try congruence.
  all: try (apply andb_prop in Hb; destruct Hb as (_ & Hb);
            apply negb_true_iff in Hb; congruence).
Qed.

Lemma main_keepalive_only_witness :
  let st := start photos_fs (mkArgs true false true (Some "photos") false
                               (Some 5%Z) false) in
  lifecycle (trace (snd (main quiet_world st))) = lifecycle (trace st) /\
  (exists new,
     services (trace (snd (main quiet_world st))) = services (trace st) ++ new /\
     starts new [EvKeepalive true]) /\
  (calm quiet_world -> browser_available quiet_world st = true ->
   fst (main quiet_world st) = Ret tt /\
   services (trace (snd (main quiet_world st))) =
   services (trace st) ++ [EvKeepalive true]).
Proof.
  apply (main_keepalive_only quiet_world
           (start photos_fs (mkArgs true false true (Some "photos") false
                               (Some 5%Z) false)));
    reflexivity.
Defined.

(** ** The order of [register] *)

(** X7: in every run of [register] the verification, the close of the
    session, [delete_default], [save_credentials] and the upload happen in
    this order and once at most: nothing is persisted before the session is
    closed, nothing is uploaded before the credentials are persisted, and
    nothing is uploaded when no file was asked for. *)
Theorem register_milestones_in_order w c executable_path config st :
  exists new,
    milestones (trace (snd (register w c executable_path config st))) =
    milestones (trace st) ++ new /\
    starts new (register_milestones w c config (console_args st)).
Proof.
  change (post (register w c executable_path config) st (fun _ st' =>
    exists new,
      milestones (trace st') = milestones (trace st) ++ new /\
      starts new (register_milestones w c config (console_args st)))).
  unfold register, register_upload, register_milestones.
  wp_all; observe_more; solve_starts.
Qed.

(** X8: when nothing raises and no upload was asked for, [register] goes
    through its steps in the order of the source, once each, and ends as
    [console_args.loop] says: it exits with status 0 outside a batch and
    returns in a batch. *)
Theorem register_runs_in_order w c executable_path config st :
  calm w ->
  file (console_args st) = None ->
  fst (register w c executable_path config st) = register_end st /\
  trace (snd (register w c executable_path config st)) =
  trace st ++ register_steps w c executable_path config.
Proof.
  intros Hcalm Hfile.
  change (post (register w c executable_path config) st (fun r st' =>
    r = register_end st /\
    trace st' = trace st ++ register_steps w c executable_path config)).
  unfold register, register_upload, register_end, register_steps.
  wp; try not_calm. observe_more. rewrite Hfile. wp. observe_more.
  destruct (loop (console_args st)) as [n|]; [destruct (n <=? 1)%Z|];
    wp; observe_more; auto.
Qed.

Lemma register_runs_in_order_witness :
  let st := start no_files (cli None (Some 3%Z)) in
  fst (register quiet_world alice chrome plain_config st) = register_end st /\
  trace (snd (register quiet_world alice chrome plain_config st)) =
  trace st ++ register_steps quiet_world alice chrome plain_config.
Proof.
  apply (register_runs_in_order quiet_world alice chrome plain_config
           (start no_files (cli None (Some 3%Z)))).
  - intros h e. reflexivity.
  - reflexivity.
Defined.

(** X9: on a path that exists, file or directory, of size [s], the upload
    is attempted exactly when [0 < s < 2e10], and the warning about the
    traffic limit is printed exactly when [5e9 <= s < 2e10]. *)
Theorem register_upload_bounds w c f n st :
  file (console_args st) = Some f ->
  fs st f = Some n ->
  uploads (trace (snd (register_upload w c st))) =
  uploads (trace st) ++
  (if (0 <? node_size n)%Z && (node_size n <? 20000000000)%Z
   then [EvUploadFile (public (console_args st)) f c] else []) /\
  warnings (trace (snd (register_upload w c st))) =
  warnings (trace st) ++
  (if (5000000000 <=? node_size n)%Z && (node_size n <? 20000000000)%Z
   then [EvPrint FileLargerThan5GB WARNING] else []).
Proof.
  intros Hfile Hfs.
  rewrite (register_upload_existing_path w c f n st Hfile Hfs).
  unfold uploads, warnings, decide. rewrite !filter_app. cbn [negb orb].
  destruct (node_size n <=? 0)%Z eqn:H0;
    [replace (0 <? node_size n)%Z with false by (symmetry; apply Z.ltb_ge; lia)
    |replace (0 <? node_size n)%Z with true by (symmetry; apply Z.ltb_lt; lia)];
    cbn [orb andb].
  - replace ((5000000000 <=? node_size n)%Z && (node_size n <? 20000000000)%Z)
      with false; [split; reflexivity|].
    symmetry. apply andb_false_iff. left. apply Z.leb_gt.
    apply Z.leb_le in H0. lia.
  - destruct (20000000000 <=? node_size n)%Z eqn:H1;
      [replace (node_size n <? 20000000000)%Z with false
         by (symmetry; apply Z.ltb_ge; lia)
      |replace (node_size n <? 20000000000)%Z with true
         by (symmetry; apply Z.ltb_lt; lia)].
    + rewrite andb_false_r. split; reflexivity.
    + rewrite andb_true_r.
      destruct (5000000000 <=? node_size n)%Z; split; reflexivity.
Qed.

Lemma register_upload_bounds_witness :
  let st := start photos_fs (cli (Some "photos") (Some 2%Z)) in
  uploads (trace (snd (register_upload quiet_world alice st))) =
  uploads (trace st) ++
  (if (0 <? node_size (Dir 4096))%Z && (node_size (Dir 4096) <? 20000000000)%Z
   then [EvUploadFile (public (console_args st)) "photos" alice] else []) /\
  warnings (trace (snd (register_upload quiet_world alice st))) =
  warnings (trace st) ++
  (if (5000000000 <=? node_size (Dir 4096))%Z &&
      (node_size (Dir 4096) <? 20000000000)%Z
   then [EvPrint FileLargerThan5GB WARNING] else []).
Proof.
  apply (register_upload_bounds quiet_world alice "photos" (Dir 4096)
           (start photos_fs (cli (Some "photos") (Some 2%Z))));
    reflexivity.
Defined.

(** ** A batch in which something fails *)

Lemma starts_refl l : starts l l.
Proof. exists []. apply app_nil_r. Qed.

Lemma starts_app_r l full more : starts l full -> starts l (full ++ more).
Proof.
  intros (rest & H). exists (rest ++ more). rewrite app_assoc, H. reflexivity.
Qed.

Lemma starts_app_l pre l full : starts l full -> starts (pre ++ l) (pre ++ full).
Proof.
  intros (rest & H). exists rest. rewrite <- app_assoc, H. reflexivity.
Qed.

Lemma loop_body_lifecycle w n executable_path config i st :
  post (p_print (LoopProgress (i + 1) n) OKGREEN ;;
        call w EvClearTmp ;;
        credentials <- generate_mail w ;;
        register w credentials executable_path config) st
    (fun r st' =>
       match r with
       | Ret _ =>
           generated st' = S (generated st) /\
           lifecycle (trace st') =
           lifecycle (trace st) ++ iteration (fresh_credentials w (generated st))
       | _ =>
           exists new,
             lifecycle (trace st') = lifecycle (trace st) ++ new /\
             starts new (iteration (fresh_credentials w (generated st)))
       end).
Proof.
  unfold iteration.
  wp; try (observe_more; solve_starts).
  match goal with |- post (register _ ?c _ _) ?s _ =>
    unfold post;
    destruct (register_frame w c executable_path config s) as (_ & _ & Hg & Hl);
    revert Hg Hl; observe_more; intros Hg Hl
  end.
  match goal with |- match ?r with _ => _ end => destruct r end.
  - auto.
  - rewrite Hl. solve_starts.
  - rewrite Hl. solve_starts.
Qed.

Lemma for_each_lifecycle w n executable_path config :
  forall k a st,
    post (for_each (map Z.of_nat (seq a k)) (fun i =>
            p_print (LoopProgress (i + 1) n) OKGREEN ;;
            call w EvClearTmp ;;
            credentials <- generate_mail w ;;
            register w credentials executable_path config)) st
      (fun _ st' =>
         exists new,
           lifecycle (trace st') = lifecycle (trace st) ++ new /\
           starts new
             (flat_map iteration
                (map (fresh_credentials w) (seq (generated st) k)))).
Proof.
  induction k as [|k IH]; intros a st; cbn [seq map for_each flat_map].
  - wp. exists []. rewrite app_nil_r. split; [reflexivity | apply starts_refl].
  - apply post_bind.
    eapply post_weaken;
      [apply (loop_body_lifecycle w n executable_path config (Z.of_nat a) st)|].
    intros r st1 H. unfold then_post.
    destruct r as [[] | x | code].
    + destruct H as (Hg & Hl).
      eapply post_weaken; [apply (IH (S a) st1)|].
      intros _ st2 (new & Hl2 & Hs). rewrite Hg in Hs.
      exists (iteration (fresh_credentials w (generated st)) ++ new). split.
      * rewrite Hl2, Hl, <- app_assoc. reflexivity.
      * apply starts_app_l. exact Hs.
    + destruct H as (new & Hl & Hs). exists new. split; [exact Hl|].
      apply starts_app_r. exact Hs.
    + destruct H as (new & Hl & Hs). exists new. split; [exact Hl|].
      apply starts_app_r. exact Hs.
Qed.

(** X10: whatever fails, a batch of [loop_count] never goes past
    [loop_count] invocations of [register], and every invocation that is
    made comes right after a reset of the working directory and the
    generation of the identity it is given. *)
Theorem loop_registrations_keeps_the_order w loop_count executable_path config st :
  exists new,
    lifecycle (trace (snd (loop_registrations w loop_count executable_path
                             config st))) =
    lifecycle (trace st) ++ new /\
    starts new
      (flat_map iteration
         (map (fresh_credentials w)
            (seq (generated st) (Z.to_nat loop_count)))).
Proof.
  exact (for_each_lifecycle w loop_count executable_path config
           (Z.to_nat loop_count) 0 st).
Qed.

(** ** The two paths of [archive_folder] *)

Section Paths.

Local Open Scope string_scope.

Lemma length_append (a b : string) :
  String.length (a ++ b) = (String.length a + String.length b)%nat.
Proof. induction a as [|c a IH]; simpl; [reflexivity | rewrite IH; reflexivity]. Qed.

(** [rstrip] takes off the characters of [chars] at the end, all of them
    and nothing else. *)
Lemma rstrip_spec chars s :
  exists tail,
    s = rstrip chars s ++ tail /\
    all_in chars tail = true /\
    last_in chars (rstrip chars s) = false.
Proof.
  induction s as [|c r (tail & Hr & Ht & Hl)].
  - exists "". repeat split.
  - cbn [rstrip]. destruct (rstrip chars r) as [|d r'] eqn:E.
    + destruct (mem_ascii c chars) eqn:Hc.
      * exists (String c r). cbn [append all_in]. rewrite Hc.
        simpl in Hr. subst tail. rewrite Ht. repeat split.
      * exists tail. simpl in *. subst tail. rewrite Hc. repeat split. exact Ht.
    + exists tail. repeat split.
      * cbn [append]. f_equal. exact Hr.
      * exact Ht.
      * exact Hl.
Qed.

Lemma last_in_append chars a tail :
  tail <> "" -> last_in chars (a ++ tail) = last_in chars tail.
Proof.
  intro Hne. induction a as [|c a IH]; [reflexivity|].
  cbn [append]. cbn [last_in].
  destruct (a ++ tail) eqn:E.
  - destruct a; simpl in E; [contradiction | discriminate].
  - exact IH.
Qed.

Lemma all_in_last chars tail :
  all_in chars tail = true -> tail <> "" -> last_in chars tail = true.
Proof.
  induction tail as [|c t IH]; intros H Hne; [contradiction|].
  simpl in H. apply andb_prop in H. destruct H as (Hc & Ht).
  destruct t; [exact Hc|]. simpl. simpl in IH. apply IH; [exact Ht | discriminate].
Qed.

Lemma rstrip_fixed chars s :
  rstrip chars s = s <-> last_in chars s = false.
Proof.
  destruct (rstrip_spec chars s) as (tail & Hs & Ht & Hl). split.
  - intro E. rewrite E in Hl. exact Hl.
  - intro H. destruct tail as [|c t].
    + rewrite append_empty_r in Hs. symmetry. exact Hs.
    + rewrite Hs, last_in_append in H by discriminate.
      rewrite all_in_last in H; [discriminate | exact Ht | discriminate].
Qed.

Lemma append_cancel_r (a b z : string) : a ++ z = b ++ z -> a = b.
Proof.
  revert b. induction a as [|c a IH]; intros [|d b] H.
  - reflexivity.
  - exfalso. apply (f_equal String.length) in H.
    simpl in H. rewrite length_append in H. lia.
  - exfalso. apply (f_equal String.length) in H.
    simpl in H. rewrite length_append in H. lia.
  - simpl in H. inversion H. f_equal. auto.
Qed.

(** X11: for a directory, the path [archive_folder] returns is the folder
    path without its trailing separators, followed by [.zip], while the
    archive is written at the folder path as given, followed by [.zip]. *)
Theorem archive_folder_returns_the_stem w folder_path st :
  fs_isdir (fs st) folder_path = true ->
  raises w (trace st ++ [EvIsDir folder_path])
    (EvMakeArchive folder_path folder_path) = false ->
  exists stem tail,
    folder_path = stem ++ tail /\
    all_in "/\" tail = true /\
    last_in "/\" stem = false /\
    fst (archive_folder w folder_path st) = Ret (stem ++ ".zip") /\
    fs (snd (archive_folder w folder_path st)) (folder_path ++ ".zip") =
    Some (File (archive_size w folder_path)).
Proof.
  intros Hd Hr.
  destruct (archive_folder_directory w folder_path st Hd Hr) as (Hret & Hfs).
  destruct (rstrip_spec "/\" folder_path) as (tail & Hs & Ht & Hl).
  exists (rstrip "/\" folder_path), tail. repeat split; try assumption.
  rewrite Hfs. unfold write_file. rewrite String.eqb_refl. reflexivity.
Qed.

Lemma archive_folder_returns_the_stem_witness :
  let st := start photos_fs (cli (Some "photos/") None) in
  exists stem tail,
    "photos/" = stem ++ tail /\
    all_in "/\" tail = true /\
    last_in "/\" stem = false /\
    fst (archive_folder quiet_world "photos/" st) = Ret (stem ++ ".zip") /\
    fs (snd (archive_folder quiet_world "photos/" st)) ("photos/" ++ ".zip") =
    Some (File (archive_size quiet_world "photos/")).
Proof.
  apply (archive_folder_returns_the_stem quiet_world "photos/"
           (start photos_fs (cli (Some "photos/") None)));
    reflexivity.
Defined.

(** X12: for a directory, the path [archive_folder] returns is the path of
    the archive it wrote exactly when the folder path does not end with a
    separator; when it does, what the returned path denotes is what it
    denoted before the call. *)
Theorem archive_folder_paths_agree w folder_path st :
  fs_isdir (fs st) folder_path = true ->
  raises w (trace st ++ [EvIsDir folder_path])
    (EvMakeArchive folder_path folder_path) = false ->
  exists returned,
    fst (archive_folder w folder_path st) = Ret returned /\
    (returned = folder_path ++ ".zip" <-> last_in "/\" folder_path = false) /\
    (last_in "/\" folder_path = true ->
     fs (snd (archive_folder w folder_path st)) returned = fs st returned).
Proof.
  intros Hd Hr.
  destruct (archive_folder_directory w folder_path st Hd Hr) as (Hret & Hfs).
  exists (rstrip "/\" folder_path ++ ".zip"). split; [exact Hret|].
  assert (Hiff : rstrip "/\" folder_path ++ ".zip" = folder_path ++ ".zip" <->
                 last_in "/\" folder_path = false).
  { rewrite <- rstrip_fixed. split.
    - apply append_cancel_r.
    - intro E. rewrite E. reflexivity. }
  split; [exact Hiff|].
  intro Hlast. rewrite Hfs. unfold write_file.
  destruct (String.eqb_spec (rstrip "/\" folder_path ++ ".zip")
              (folder_path ++ ".zip")) as [E|E]; [|reflexivity].
  apply Hiff in E. congruence.
Qed.

Lemma archive_folder_paths_agree_witness :
  let st := start photos_fs (cli (Some "photos") None) in
  exists returned,
    fst (archive_folder quiet_world "photos" st) = Ret returned /\
    (returned = "photos" ++ ".zip" <-> last_in "/\" "photos" = false) /\
    (last_in "/\" "photos" = true ->
     fs (snd (archive_folder quiet_world "photos" st)) returned =
     fs st returned).
Proof.
  apply (archive_folder_paths_agree quiet_world "photos"
           (start photos_fs (cli (Some "photos") None)));
    reflexivity.
Defined.

End Paths.

(** ** What [parse_account] returns *)

Section Parsing.

Local Open Scope string_scope.

Lemma search_none label text :
  contains label text = false -> search label text = None.
Proof.
  induction text as [|c t IH]; intro H; cbn [contains] in H; cbn [search];
    unfold match_here;
    destruct (strip_prefix label _) eqn:E; try discriminate; auto.
Qed.

(** X13: a text in which one of the three labels does not occur is no
    account: [parse_account] returns [None]. *)
Theorem parse_account_needs_every_label text :
  contains "Email: " text && contains "Email Password: " text &&
  contains "Mega Password: " text = false ->
  parse_account text = None.
Proof.
  intro H. unfold parse_account.
  apply andb_false_iff in H. destruct H as [H|H].
  - apply andb_false_iff in H. destruct H as [H|H].
    + rewrite (search_none _ _ H). reflexivity.
    + rewrite (search_none _ _ H). destruct (search "Email: " text); reflexivity.
  - rewrite (search_none _ _ H).
    destruct (search "Email: " text); [|reflexivity].
    destruct (search "Email Password: " text); reflexivity.
Qed.

Lemma parse_account_needs_every_label_witness :
  parse_account
    ("Email: alice@mail.test" ++ String newline "Mega Password: megapw") = None.
Proof.
  apply (parse_account_needs_every_label
           ("Email: alice@mail.test" ++ String newline "Mega Password: megapw")).
  reflexivity.
Defined.

Lemma strip_prefix_split p s r : strip_prefix p s = Some r -> s = p ++ r.
Proof.
  revert s. induction p as [|a p IH]; intros s H; simpl in H.
  - inversion H. reflexivity.
  - destruct s as [|b s]; [discriminate|].
    destruct (Ascii.eqb_spec a b) as [->|]; [|discriminate].
    simpl. f_equal. auto.
Qed.

Lemma line_split r :
  exists after,
    r = line r ++ after /\ ends_line after = true /\ one_line (line r) = true.
Proof.
  induction r as [|c r (after & Hr & He & Ho)].
  - exists "". repeat split.
  - cbn [line]. destruct (Ascii.eqb c newline) eqn:Hc.
    + exists (String c r). repeat split. simpl. exact Hc.
    + exists after. repeat split.
      * cbn [append]. f_equal. exact Hr.
      * exact He.
      * cbn [one_line]. rewrite Hc, Ho. reflexivity.
Qed.

Lemma match_here_sound label text g :
  match_here label text = Some g ->
  readable g = true /\
  exists after, text = label ++ g ++ after /\ ends_line after = true.
Proof.
  unfold match_here. intro H.
  destruct (strip_prefix label text) as [r|] eqn:E; [|discriminate].
  apply strip_prefix_split in E.
  destruct (line_split r) as (after & Hr & He & Ho).
  destruct (line r) as [|c l] eqn:El; [discriminate|].
  inversion H. subst g. split.
  - unfold readable. rewrite Ho. reflexivity.
  - exists after. rewrite E, Hr. auto.
Qed.

Lemma search_sound label text g :
  search label text = Some g ->
  readable g = true /\ follows_label label g text.
Proof.
  induction text as [|c t IH]; cbn [search]; intro H.
  - destruct (match_here label "") eqn:E; [|discriminate].
    inversion H. subst. apply match_here_sound in E.
    destruct E as (Hr & after & Ht & He). split; [exact Hr|].
    exists "", after. auto.
  - destruct (match_here label (String c t)) eqn:E.
    + inversion H. subst. apply match_here_sound in E.
      destruct E as (Hr & after & Ht & He). split; [exact Hr|].
      exists "", after. auto.
    + destruct (IH H) as (Hr & before & after & Ht & He). split; [exact Hr|].
      exists (String c before), after. rewrite Ht. auto.
Qed.

(** X14: what [parse_account] returns is read in the text: the dictionary
    has the keys email, emailPassword and password, and each value is a
    non-empty single line that stands in the text right after its label and
    runs to the end of that line. *)
Theorem parse_account_reads_the_text text account_data :
  parse_account text = Some account_data ->
  exists e ep p,
    account_data = [("email", e); ("emailPassword", ep); ("password", p)] /\
    (readable e = true /\ follows_label "Email: " e text) /\
    (readable ep = true /\ follows_label "Email Password: " ep text) /\
    (readable p = true /\ follows_label "Mega Password: " p text).
Proof.
  unfold parse_account. intro H.
  destruct (search "Email: " text) as [e|] eqn:He; [|discriminate].
  destruct (search "Email Password: " text) as [ep|] eqn:Hep; [|discriminate].
  destruct (search "Mega Password: " text) as [p|] eqn:Hp; [|discriminate].
  inversion H. exists e, ep, p. split; [reflexivity|].
  repeat split; eapply search_sound; eassumption.
Qed.

Lemma parse_account_reads_the_text_witness :
  exists e ep p,
    [("email", "a@b.c"); ("emailPassword", "x"); ("password", "y")] =
    [("email", e); ("emailPassword", ep); ("password", p)] /\
    (readable e = true /\
     follows_label "Email: " e
       ("Email: a@b.c" ++ String newline ("Email Password: x" ++
        String newline "Mega Password: y"))) /\
    (readable ep = true /\
     follows_label "Email Password: " ep
       ("Email: a@b.c" ++ String newline ("Email Password: x" ++
        String newline "Mega Password: y"))) /\
    (readable p = true /\
     follows_label "Mega Password: " p
       ("Email: a@b.c" ++ String newline ("Email Password: x" ++
        String newline "Mega Password: y"))).
Proof.
  apply (parse_account_reads_the_text
           ("Email: a@b.c" ++ String newline ("Email Password: x" ++
            String newline "Mega Password: y"))
           [("email", "a@b.c"); ("emailPassword", "x"); ("password", "y")]).
  reflexivity.
Defined.

End Parsing.

(** ** The files of [convert_accounts] *)

Section Converting.

Local Open Scope string_scope.

(** The string methods on small inputs, as Python has them. *)
Example split_pieces :
  split "-" "a-b--c" = ["a"; "b"; ""; "c"] /\
  split "--" "a---b" = ["a"; "-b"] /\
  split "--" "" = [""] /\
  split "--" "----" = [""; ""; ""].
Proof. repeat split. Qed.

Example strip_both_ends :
  strip (String newline "  a b " ++ String newline "") = "a b".
Proof. reflexivity. Qed.

Example json_filename_of_emails :
  json_filename "alice@mail.test" = Some "alice@mail.json" /\
  json_filename "alice@mail.example.org" = Some "alice@mail.json" /\
  json_filename "a@b@c.d" = Some "a@b.json" /\
  json_filename "alice" = None.
Proof. repeat split. Qed.

Lemma split_go_skip sep cur u b :
  split_go sep (String.length u) cur (u ++ b) = split_go sep 0 cur b.
Proof.
  induction u as [|c u IH]; [reflexivity|]. cbn [String.length append split_go].
  exact IH.
Qed.

Lemma split_go_nonempty sep : forall s k cur, split_go sep k cur s <> [].
Proof.
  induction s as [|c t IH]; intros k cur; cbn [split_go]; [discriminate|].
  destruct k; [|apply IH].
  destruct (strip_prefix sep (String c t)); [discriminate | apply IH].
Qed.

(** Splitting at a character: a piece runs to the next occurrence. *)
Lemma split_char_none c s cur :
  mem_ascii c s = false ->
  split_go (String c "") 0 cur s = [cur ++ s].
Proof.
  revert cur. induction s as [|d t IH]; intros cur H.
  - cbn [split_go]. rewrite append_empty_r. reflexivity.
  - cbn [mem_ascii] in H. apply orb_false_iff in H. destruct H as (Hd & Ht).
    cbn [split_go strip_prefix]. rewrite Hd.
    rewrite (IH _ Ht), append_assoc. reflexivity.
Qed.

Lemma split_char_first c a b cur :
  mem_ascii c a = false ->
  split_go (String c "") 0 cur (a ++ String c b) =
  (cur ++ a) :: split_go (String c "") 0 "" b.
Proof.
  revert cur. induction a as [|d t IH]; intros cur H.
  - cbn [append split_go strip_prefix]. rewrite Ascii.eqb_refl.
    rewrite append_empty_r. reflexivity.
  - cbn [mem_ascii] in H. apply orb_false_iff in H. destruct H as (Hd & Ht).
    cbn [append split_go strip_prefix]. rewrite Hd.
    rewrite (IH _ Ht), append_assoc. reflexivity.
Qed.

Lemma mem_ascii_split c s :
  mem_ascii c s = true ->
  exists a b, s = a ++ String c b /\ mem_ascii c a = false.
Proof.
  induction s as [|d t IH]; intro H; [discriminate|].
  cbn [mem_ascii] in H. destruct (Ascii.eqb_spec c d) as [->|Hne].
  - exists "", t. split; reflexivity.
  - destruct (IH H) as (a & b & Ht & Ha). exists (String d a), b. split.
    + rewrite Ht. reflexivity.
    + cbn [mem_ascii]. rewrite Ha.
      destruct (Ascii.eqb_spec c d); [contradiction | reflexivity].
Qed.

Lemma json_filename_some email :
  mem_ascii "@" email = true -> exists n, json_filename email = Some n.
Proof.
  intro Hm. unfold json_filename, split.
  destruct (mem_ascii_split _ _ Hm) as (a & b & -> & Ha).
  rewrite (split_char_first "@" a b "" Ha).
  destruct (split_go "@" 0 "" b) as [|host l] eqn:Eb;
    [exfalso; exact (split_go_nonempty _ _ _ _ Eb)|].
  destruct (split_go "." 0 "" host) as [|label l'] eqn:Eh;
    [exfalso; exact (split_go_nonempty _ _ _ _ Eh) | eauto].
Qed.

(** X15: [convert_accounts] has a file name for an email exactly when the
    email holds an [@]; without one, [email.split('@')[1]] raises. *)
Theorem json_filename_needs_an_at email :
  json_filename email = None <-> mem_ascii "@" email = false.
Proof.
  split.
  - intro H. destruct (mem_ascii "@" email) eqn:Hm; [|reflexivity].
    destruct (json_filename_some email Hm) as (n & Hn). congruence.
  - intro H. unfold json_filename, split.
    rewrite (split_char_none "@" email "" H). reflexivity.
Qed.

(** X16: for an email made of a user, an [@], a first label of the domain
    and the rest of the domain, the file is named after the user and that
    label alone: what follows the first dot of the domain is not in the
    name. *)
Theorem json_filename_drops_the_domain_tail user label tail :
  mem_ascii "@" user = false ->
  mem_ascii "@" label = false ->
  mem_ascii "." label = false ->
  mem_ascii "@" tail = false ->
  json_filename (user ++ "@" ++ label ++ "." ++ tail) =
  Some (user ++ "@" ++ label ++ ".json").
Proof.
  intros Hu Hl Hd Ht. unfold json_filename, split.
  change (user ++ "@" ++ label ++ "." ++ tail)
    with (user ++ String "@" (label ++ String "." tail)).
  rewrite (split_char_first "@" user _ "" Hu).
  rewrite split_char_none.
  - cbn [append]. rewrite (split_char_first "." label tail "" Hd). reflexivity.
  - clear - Hl Ht. induction label as [|c l IH]; cbn [append mem_ascii] in *.
    + rewrite Ht. reflexivity.
    + apply orb_false_iff in Hl. destruct Hl as (Hc & Hl).
      rewrite Hc. apply IH. exact Hl.
Qed.

Lemma json_filename_drops_the_domain_tail_witness :
  json_filename ("alice" ++ "@" ++ "mail" ++ "." ++ "example.org") =
  Some ("alice" ++ "@" ++ "mail" ++ ".json").
Proof.
  apply (json_filename_drops_the_domain_tail "alice" "mail" "example.org");
    reflexivity.
Defined.

Lemma json_filename_needs_an_at_witness : json_filename "alice" = None.
Proof. apply (json_filename_needs_an_at "alice"). reflexivity. Defined.


Lemma split_go_match sep b cur :
  nonempty sep = true ->
  split_go sep 0 cur (sep ++ b) = cur :: split_go sep 0 "" b.
Proof.
  intro Hne. destruct sep as [|a sep']; [discriminate|].
  cbn [append split_go strip_prefix].
  rewrite Ascii.eqb_refl, strip_prefix_append. f_equal.
  replace (String.length (String a sep') - 1)%nat with (String.length sep')
    by (cbn [String.length]; lia).
  apply split_go_skip.
Qed.





Lemma last_in_cons chars c r :
  r <> "" -> last_in chars (String c r) = last_in chars r.
Proof. destruct r; [contradiction | reflexivity]. Qed.



















(** The files of two accounts, as they are written. *)
Example convert_accounts_two_files :
  convert_accounts (Some (accounts_file [alice; bob])) =
  Converted
    [("alice@mail.json",
      [("email", "alice@mail.test"); ("emailPassword", "mailpw");
       ("password", "megapw")]);
     ("bob@mail.json",
      [("email", "bob@mail.example.org"); ("emailPassword", "pw two");
       ("password", "secret-2")])] 2.
Proof. vm_compute. reflexivity. Qed.

(** Carriage returns of [accounts.txt] are ends of lines for the parser: a
    file with the line ends of Windows converts as one with plain line
    feeds, and a field stops at a carriage return. *)
Example convert_accounts_carriage_returns :
  convert_accounts
    (Some ("Email: alice@mail.test" ++ String carriage_return (String newline
           ("Email Password: mailpw" ++ String carriage_return (String newline
           ("Mega Password: mega" ++ String carriage_return "pw")))))) =
  Converted
    [("alice@mail.json",
      [("email", "alice@mail.test"); ("emailPassword", "mailpw");
       ("password", "mega")])] 1.
Proof. vm_compute. reflexivity. Qed.

Lemma contains_part label s :
  contains label s = true <-> part_of label s.
Proof.
  split.
  - induction s as [|c t IH]; cbn [contains]; intro H.
    + destruct (strip_prefix label "") eqn:E; [|discriminate].
      apply strip_prefix_split in E. exists "", s. exact E.
    + destruct (strip_prefix label (String c t)) eqn:E.
      * apply strip_prefix_split in E. exists "", s. exact E.
      * destruct (IH H) as (x & y & Ht). exists (String c x), y.
        rewrite Ht. reflexivity.
  - intros (x & y & ->). induction x as [|c x IH].
    + cbn [append]. destruct (label ++ y) eqn:E; cbn [contains]; rewrite <- E;
        rewrite strip_prefix_append; reflexivity.
    + cbn [append contains]. rewrite IH.
      destruct (strip_prefix label _); reflexivity.
Qed.

Lemma part_of_trans a b c : part_of a b -> part_of b c -> part_of a c.
Proof.
  intros (x & y & ->) (x' & y' & ->). exists (x' ++ x), (y ++ y').
  rewrite !append_assoc. reflexivity.
Qed.

Lemma contains_in_part label piece s :
  part_of piece s -> contains label s = false -> contains label piece = false.
Proof.
  intros Hp Hs. destruct (contains label piece) eqn:E; [|reflexivity].
  apply contains_part in E.
  assert (H : contains label s = true)
    by (apply contains_part; eapply part_of_trans; eassumption).
  congruence.
Qed.

(** The pieces of a split stand in the text. *)
Lemma split_go_parts sep : forall s k cur,
  k = 0 \/ cur = "" ->
  Forall (fun piece => part_of piece (cur ++ s)) (split_go sep k cur s).
Proof.
  induction s as [|c t IH]; intros k cur Hk; cbn [split_go].
  - constructor; [|constructor]. exists "", "". rewrite !append_empty_r.
    reflexivity.
  - destruct k as [|k].
    + destruct (strip_prefix sep (String c t)).
      * constructor; [exists "", (String c t); reflexivity|].
        eapply Forall_impl; [|apply (IH _ ""); right; reflexivity].
        intros piece (x & y & Ht). cbn [append] in Ht.
        exists (cur ++ String c x), y. rewrite Ht, append_assoc. reflexivity.
      * eapply Forall_impl; [|apply (IH 0 (cur ++ String c "")); left; reflexivity].
        intros piece (x & y & Ht). exists x, y. rewrite <- Ht, append_assoc.
        reflexivity.
    + destruct Hk as [Hk | ->]; [discriminate|].
      eapply Forall_impl; [|apply (IH k ""); right; reflexivity].
      intros piece (x & y & Ht). cbn [append] in *.
      exists (String c x), y. rewrite Ht. reflexivity.
Qed.

Lemma lstrip_part chars s : part_of (lstrip chars s) s.
Proof.
  induction s as [|c t (x & y & Ht)]; cbn [lstrip].
  - exists "", "". reflexivity.
  - destruct (mem_ascii c chars).
    + exists (String c x), y. cbn [append]. f_equal. exact Ht.
    + exists "", "". cbn [append]. rewrite append_empty_r. reflexivity.
Qed.

Lemma strip_part s : part_of (strip s) s.
Proof.
  unfold strip. eapply part_of_trans; [apply lstrip_part|].
  destruct (rstrip_spec whitespace s) as (tail & Hs & _).
  exists "", tail. exact Hs.
Qed.

Lemma convert_loop_skips accounts files n :
  Forall (fun account => parse_account (strip account) = None) accounts ->
  convert_loop accounts files n = Converted files n.
Proof.
  induction 1 as [|a l Ha Hl IH]; cbn [convert_loop]; [reflexivity|].
  rewrite Ha, IH. destruct (String.eqb (strip a) ""); reflexivity.
Qed.

(** A label that holds no end of line is not brought about by the
    translation of the ends of lines. *)
Lemma strip_prefix_read_text label :
  one_line label = true ->
  mem_ascii carriage_return label = false ->
  forall s r,
    strip_prefix label (read_text s) = Some r ->
    exists r', strip_prefix label s = Some r'.
Proof.
  induction label as [|a l IH]; intros Hl Hc s r H; [cbn; eauto|].
  cbn [one_line] in Hl. apply andb_prop in Hl. destruct Hl as (Ha & Hl).
  apply negb_true_iff in Ha.
  cbn [mem_ascii] in Hc. apply orb_false_iff in Hc. destruct Hc as (Hca & Hc).
  destruct s as [|c t]; [discriminate|].
  cbn [read_text] in H.
  destruct (Ascii.eqb c carriage_return) eqn:Ec.
  - exfalso. destruct t as [|c' t'].
    + cbn [strip_prefix] in H. rewrite Ha in H. discriminate.
    + destruct (Ascii.eqb c' newline) eqn:En.
      * apply Ascii.eqb_eq in En. subst c'. cbn [read_text] in H.
        change (Ascii.eqb newline carriage_return) with false in H.
        cbn [strip_prefix] in H. rewrite Ha in H. discriminate.
      * cbn [strip_prefix] in H. rewrite Ha in H. discriminate.
  - cbn [strip_prefix] in *. destruct (Ascii.eqb a c); [|discriminate].
    exact (IH Hl Hc t r H).
Qed.

Lemma contains_read_text label s :
  one_line label = true ->
  mem_ascii carriage_return label = false ->
  contains label s = false ->
  contains label (read_text s) = false.
Proof.
  intros Hl Hc Hs.
  destruct (contains label (read_text s)) eqn:E; [exfalso|reflexivity].
  destruct label as [|a l].
  { destruct s; discriminate. }
  assert (Hnl : forall x, strip_prefix (String a l) (String newline x) = None).
  { intro x. cbn [one_line] in Hl. apply andb_prop in Hl.
    destruct Hl as (Ha & _). apply negb_true_iff in Ha.
    cbn [strip_prefix]. rewrite Ha. reflexivity. }
  revert Hs E. induction s as [|c t IH]; intros Hs E; [discriminate|].
  cbn [contains] in Hs.
  destruct (strip_prefix (String a l) (String c t)) eqn:Es; [discriminate|].
  cbn [read_text] in E.
  destruct (Ascii.eqb c carriage_return) eqn:Ec.
  - destruct t as [|c' t'].
    + cbn [contains] in E. rewrite Hnl in E. discriminate.
    + destruct (Ascii.eqb c' newline) eqn:En.
      * exact (IH Hs E).
      * cbn [contains] in E. rewrite Hnl in E. exact (IH Hs E).
  - cbn [contains] in E.
    destruct (strip_prefix (String a l) (String c (read_text t))) eqn:Ep.
    + destruct (strip_prefix_read_text (String a l) Hl Hc (String c t) s) as (r' & Hr').
      * cbn [read_text]. rewrite Ec. exact Ep.
      * congruence.
    + exact (IH Hs E).
Qed.

(** X19: from an [accounts.txt] in which one of the three labels never
    occurs, [convert_accounts] writes no file and raises nothing: every
    block is passed over and the count is 0. *)
Theorem convert_accounts_without_label content :
  contains "Email: " content && contains "Email Password: " content &&
  contains "Mega Password: " content = false ->
  convert_accounts (Some content) = Converted [] 0.
Proof.
  intro H0.
  assert (H : contains "Email: " (read_text content) &&
              contains "Email Password: " (read_text content) &&
              contains "Mega Password: " (read_text content) = false).
  { apply andb_false_iff in H0. destruct H0 as [H0|H0];
      [apply andb_false_iff in H0; destruct H0 as [H0|H0]|].
    all: apply contains_read_text in H0; [|reflexivity ..]; rewrite H0.
    all: rewrite ?andb_false_r; reflexivity. }
  clear H0. unfold convert_accounts, split. cbv zeta.
  generalize dependent (read_text content). clear content. intros content H.
  apply convert_loop_skips.
  eapply Forall_impl;
    [|apply (split_go_parts separator content 0 ""); left; reflexivity].
  intros piece Hp. cbn [append] in Hp.
  assert (Hs : part_of (strip piece) content)
    by (eapply part_of_trans; [apply strip_part | exact Hp]).
  unfold parse_account.
  apply andb_false_iff in H. destruct H as [H|H].
  - apply andb_false_iff in H. destruct H as [H|H].
    + rewrite (search_none _ _ (contains_in_part _ _ _ Hs H)). reflexivity.
    + rewrite (search_none _ _ (contains_in_part _ _ _ Hs H)).
      destruct (search "Email: " (strip piece)); reflexivity.
  - rewrite (search_none _ _ (contains_in_part _ _ _ Hs H)).
    destruct (search "Email: " (strip piece)); [|reflexivity].
    destruct (search "Email Password: " (strip piece)); reflexivity.
Qed.

Lemma convert_accounts_without_label_witness :
  convert_accounts
    (Some ("alice@mail.test:megapw" ++ String newline (separator ++
           String newline "Email: bob@mail.test"))) =
  Converted [] 0.
Proof.
  apply (convert_accounts_without_label
           ("alice@mail.test:megapw" ++ String newline (separator ++
            String newline "Email: bob@mail.test"))).
  reflexivity.
Defined.

Lemma concat_cons sep a l :
  l <> [] -> String.concat sep (a :: l) = a ++ sep ++ String.concat sep l.
Proof. destruct l; [contradiction | reflexivity]. Qed.

Lemma split_go_joins sep :
  nonempty sep = true ->
  forall m s cur,
    String.length s <= m ->
    String.concat sep (split_go sep 0 cur s) = cur ++ s.
Proof.
  intro Hne. induction m as [|m IH]; intros s cur Hm.
  - destruct s; [|simpl in Hm; lia].
    cbn [split_go String.concat]. rewrite append_empty_r. reflexivity.
  - destruct s as [|c t];
      [cbn [split_go String.concat]; rewrite append_empty_r; reflexivity|].
    destruct (strip_prefix sep (String c t)) as [r|] eqn:E.
    + apply strip_prefix_split in E. rewrite E.
      rewrite (split_go_match sep r cur Hne).
      rewrite concat_cons by apply split_go_nonempty.
      rewrite (IH r ""); [reflexivity|].
      apply (f_equal String.length) in E. rewrite length_append in E.
      destruct sep; [discriminate|]. simpl in E, Hm. lia.
    + cbn [split_go]. rewrite E.
      rewrite (IH t); [rewrite append_assoc; reflexivity|].
      simpl in Hm. lia.
Qed.

(** X20: the split of [convert_accounts] loses nothing of the file: its
    pieces, joined again with the separator, are the content read. *)
Theorem split_separator_joins content :
  String.concat separator (split separator content) = content.
Proof.
  unfold split.
  exact (split_go_joins separator eq_refl (String.length content) content ""
           (le_n _)).
Qed.

End Converting.

(** ** Whole runs in which nothing raises *)

Lemma call_calm w e st : calm w -> call w e st = (Ret tt, log e st).
Proof. intro H. unfold call. rewrite H. reflexivity. Qed.

(** With nothing raising and a browser at hand, [__main__] comes to its
    provisioning branch in a state that differs from the first one by the
    trace of the set-up only. *)
Lemma main_calm_provisions w st :
  convert (console_args st) = false ->
  extract (console_args st) = false ->
  keepalive (console_args st) = false ->
  calm w ->
  browser_available w st = true ->
  exists executable_path st1,
    console_args st1 = console_args st /\
    fs st1 = fs st /\
    generated st1 = generated st /\
    lifecycle (trace st1) = lifecycle (trace st) /\
    uploads (trace st1) = uploads (trace st) /\
    main w st =
    match loop (console_args st) with
    | Some n =>
        if (1 <? n)%Z
        then loop_registrations w n executable_path (config_in_use w)
        else single_shot w executable_path (config_in_use w)
    | None => single_shot w executable_path (config_in_use w)
    end st1.
Proof.
  intros Hconv Hext Hka Hcalm Hb.
  unfold browser_available in Hb. unfold main, setup, config_in_use.
  unfold bind at 1. rewrite call_calm by assumption.
  unfold bind at 1. rewrite call_calm by assumption.
  unfold bind at 1. unfold get_args at 1. cbn [console_args log].
  rewrite Hconv, Hext, Hka.
  unfold bind at 1. unfold ret at 1.
  unfold bind at 1. unfold bind at 1. unfold read_config.
  unfold bind at 1. rewrite call_calm by assumption. unfold ret at 1.
  destruct (stored_config w) as [c|].
  - unfold bind at 1. unfold ret at 1.
    destruct (String.eqb (executablePath c) "") eqn:He.
    + apply andb_prop in Hb. destruct Hb as (Hx & Hne).
      apply negb_true_iff in Hne.
      unfold bind at 1. unfold p_print at 1, emit at 1.
      unfold bind at 1. unfold input. unfold bind at 1.
      rewrite call_calm by assumption. unfold ret at 1.
      unfold bind at 1. unfold exists_ at 1. cbn [fs log]. rewrite Hx.
      unfold bind at 1. unfold p_print at 1, emit at 1.
      unfold bind at 1. rewrite call_calm by assumption. unfold ret at 1.
      rewrite Hne.
      eexists. eexists.
      refine (conj _ (conj _ (conj _ (conj _ (conj _ _))))); cycle 5;
        [reflexivity | observe_more; reflexivity ..].
    + unfold ret at 1. rewrite He.
      eexists. eexists.
      refine (conj _ (conj _ (conj _ (conj _ (conj _ _))))); cycle 5;
        [reflexivity | observe_more; reflexivity ..].
  - apply andb_prop in Hb. destruct Hb as (Hx & Hne).
    apply negb_true_iff in Hne.
    unfold bind at 1. unfold bind at 1. rewrite call_calm by assumption.
    unfold bind at 1. unfold concrete_read_config. unfold bind at 1.
    rewrite call_calm by assumption. unfold ret at 1. unfold ret at 1.
    cbn [String.eqb].
    unfold bind at 1. unfold p_print at 1, emit at 1.
    unfold bind at 1. unfold input. unfold bind at 1.
    rewrite call_calm by assumption. unfold ret at 1.
    unfold bind at 1. unfold exists_ at 1. cbn [fs log]. rewrite Hx.
    unfold bind at 1. unfold p_print at 1, emit at 1.
    unfold bind at 1. rewrite call_calm by assumption. unfold ret at 1.
    rewrite Hne.
    eexists. eexists.
      refine (conj _ (conj _ (conj _ (conj _ (conj _ _))))); cycle 5;
      [reflexivity | observe_more; reflexivity ..].
Qed.

(** X21: a whole batch in which nothing raises: with [--loop N], [N > 1],
    a browser at hand and an upload path that exists when one is given,
    [__main__] makes the [N] iterations and comes to its end, without
    [sys.exit]. *)
Theorem main_batch_runs w st n :
  convert (console_args st) = false ->
  extract (console_args st) = false ->
  keepalive (console_args st) = false ->
  calm w ->
  browser_available w st = true ->
  upload_path_ok st = true ->
  loop (console_args st) = Some n ->
  (1 < n)%Z ->
  fst (main w st) = Ret tt /\
  lifecycle (trace (snd (main w st))) =
  lifecycle (trace st) ++
  flat_map iteration
    (map (fresh_credentials w) (seq (generated st) (Z.to_nat n))).
Proof.
  intros Hconv Hext Hka Hcalm Hb Hok Hloop Hn.
  destruct (main_calm_provisions w st Hconv Hext Hka Hcalm Hb)
    as (exe & st1 & Ha & Hf & Hg & Hl & _ & E).
  rewrite E, Hloop. replace (1 <? n)%Z with true by (symmetry; apply Z.ltb_lt; lia).
  destruct (for_each_iterations w n exe (config_in_use w) Hcalm Hn
              (Z.to_nat n) 0 st1) as (Hr & Hlc).
  - rewrite Ha. exact Hloop.
  - unfold upload_path_ok in *. rewrite Ha, Hf. exact Hok.
  - split; [exact Hr|]. unfold loop_registrations, range.
    rewrite Hlc, Hl, Hg. reflexivity.
Qed.

Lemma main_batch_runs_witness :
  let st := start photos_fs (cli (Some "notes.txt") (Some 3%Z)) in
  fst (main quiet_world st) = Ret tt /\
  lifecycle (trace (snd (main quiet_world st))) =
  lifecycle (trace st) ++
  flat_map iteration (map (fresh_credentials quiet_world) (seq 0 3)).
Proof.
  apply (main_batch_runs quiet_world
           (start photos_fs (cli (Some "notes.txt") (Some 3%Z))) 3);
    try reflexivity.
  intros h e. reflexivity.
Defined.

Lemma register_uploads_calm w c executable_path config f n st :
  calm w ->
  file (console_args st) = Some f ->
  fs st f = Some n ->
  uploads (trace (snd (register w c executable_path config st))) =
  uploads (trace st) ++
  (if (0 <? node_size n)%Z && (node_size n <? 20000000000)%Z
   then [EvUploadFile (public (console_args st)) f c] else []).
Proof.
  intros Hcalm Hfile Hfs.
  change (post (register w c executable_path config) st (fun _ st' =>
    uploads (trace st') =
    uploads (trace st) ++
    (if (0 <? node_size n)%Z && (node_size n <? 20000000000)%Z
     then [EvUploadFile (public (console_args st)) f c] else []))).
  unfold register, register_upload.
  wp; try not_calm. observe_more. rewrite Hfile. wp; observe_more;
    [congruence|].
  match goal with H : fs st f = Some ?k |- _ =>
    assert (k = n) by congruence; subst k end.
  unfold fs_exists. rewrite Hfs. cbn [andb].
  destruct ((0 <? node_size n)%Z && (node_size n <? 20000000000)%Z);
    wp_all; try not_calm; observe_more; auto.
Qed.

Section WholeRuns.

Local Open Scope string_scope.

(** X22: a whole single-shot run on a folder: when nothing raises, the
    folder path does not end with a separator and the archive has size [s],
    the run ends with status 0, [console_args.file] is the archive path, and
    the upload is made with the archive path, exactly when [0 < s < 2e10]. *)
Theorem main_uploads_the_archive w st f :
  convert (console_args st) = false ->
  extract (console_args st) = false ->
  keepalive (console_args st) = false ->
  match loop (console_args st) with
  | Some n => (1 <? n)%Z = false
  | None => True
  end ->
  calm w ->
  browser_available w st = true ->
  file (console_args st) = Some f ->
  f <> "" ->
  fs_isdir (fs st) f = true ->
  last_in "/\" f = false ->
  fst (main w st) = Exit 0%Z /\
  file (console_args (snd (main w st))) = Some (f ++ ".zip") /\
  uploads (trace (snd (main w st))) =
  (uploads (trace st) ++
   (if (0 <? archive_size w f)%Z && (archive_size w f <? 20000000000)%Z
    then [EvUploadFile (public (console_args st)) (f ++ ".zip")
            (fresh_credentials w (generated st))]
    else []))%list.
Proof.
  intros Hconv Hext Hka Hloop Hcalm Hb Hfile Hne Hdir Hlast.
  destruct (main_calm_provisions w st Hconv Hext Hka Hcalm Hb)
    as (exe & st1 & Ha & Hf & Hg & _ & Hu & E).
  assert (Hsingle :
    main w st = single_shot w exe (config_in_use w) st1).
  { rewrite E. destruct (loop (console_args st)); [rewrite Hloop|]; reflexivity. }
  rewrite Hsingle. clear E Hsingle.
  apply rstrip_fixed in Hlast. apply String.eqb_neq in Hne.
  change (post (single_shot w exe (config_in_use w)) st1 (fun r st' =>
    r = Exit 0%Z /\
    file (console_args st') = Some (f ++ ".zip") /\
    uploads (trace st') =
    (uploads (trace st) ++
     (if (0 <? archive_size w f)%Z && (archive_size w f <? 20000000000)%Z
      then [EvUploadFile (public (console_args st)) (f ++ ".zip")
              (fresh_credentials w (generated st))]
      else []))%list)).
  unfold single_shot, archive_folder.
  wp; try not_calm. observe_more. rewrite Ha, Hfile, Hne. wp.
  observe_more. rewrite ?Hf, ?Hdir. wp. observe_more. rewrite ?Hf, ?Hdir.
  cbn [negb]. wp; try not_calm. rewrite Hlast, Hg.
  match goal with |- post (register _ ?c _ ?cfg) ?s _ =>
    unfold post;
    destruct (register_frame w c exe cfg s) as (Hra & _);
    destruct (register_calm w c exe cfg s Hcalm) as (Hrr & _);
    [|pose proof (register_uploads_calm w c exe cfg (f ++ ".zip")
                    (File (archive_size w f)) s Hcalm) as Hru]
  end.
  - unfold upload_path_ok, fs_exists. observe_more. unfold write_file.
    rewrite String.eqb_refl. reflexivity.
  - rewrite Hrr, Hra, Hru.
    + unfold register_end. observe_more.
      unfold uploads in *. rewrite filter_app. cbn [filter is_upload node_size].
      rewrite app_nil_r, Hu.
      split; [|split; reflexivity].
      destruct (loop (console_args st)) as [n|]; [|reflexivity].
      rewrite Z.leb_antisym, Hloop. reflexivity.
    + observe_more. reflexivity.
    + observe_more. unfold write_file. rewrite String.eqb_refl. reflexivity.
Qed.

Lemma main_uploads_the_archive_witness :
  let st := start photos_fs (cli (Some "photos") None) in
  fst (main quiet_world st) = Exit 0%Z /\
  file (console_args (snd (main quiet_world st))) = Some ("photos" ++ ".zip") /\
  uploads (trace (snd (main quiet_world st))) =
  (uploads (trace st) ++
   (if (0 <? archive_size quiet_world "photos")%Z &&
       (archive_size quiet_world "photos" <? 20000000000)%Z
    then [EvUploadFile (public (console_args st)) ("photos" ++ ".zip")
            (fresh_credentials quiet_world (generated st))]
    else []))%list.
Proof.
  apply (main_uploads_the_archive quiet_world
           (start photos_fs (cli (Some "photos") None)) "photos");
    try reflexivity.
  - intros h e. reflexivity.
  - discriminate.
Defined.

End WholeRuns.

(** * Batches and single attempts, to their end *)

(** ** The batch runner, whatever happens *)












(** ** Batch runs and single-shot runs, to their end *)

Ltac observe_sizes :=
  cbn [trace fs console_args generated log fst snd set_file next_credentials
       write_archive keepalive extract verbose file public loop convert] in *;
  unfold size_checks;
  rewrite ?filter_app;
  cbn [filter is_size_check];
  repeat match goal with
         | |- context [filter is_size_check ?l] =>
             change (filter is_size_check l) with (size_checks l)
         end;
  rewrite ?app_nil_r, <- ?app_assoc;
  cbn [app].

(** When nothing raises, [register] asks once for the size of the upload
    path it finds in [console_args], and archives nothing. *)
Lemma register_calm_sizes w c executable_path config st :
  calm w ->
  upload_path_ok st = true ->
  size_checks (trace (snd (register w c executable_path config st))) =
  size_checks (trace st) ++ given_path_check (console_args st).
Proof.
  intros Hcalm Hok.
  change (post (register w c executable_path config) st (fun _ st' =>
    size_checks (trace st') =
    size_checks (trace st) ++ given_path_check (console_args st))).
  unfold upload_path_ok, fs_exists in Hok.
  unfold register, register_upload, given_path_check.
  wp; try not_calm. observe_sizes.
  destruct (file (console_args st)) as [f|]; wp; observe_sizes.
  - match goal with H : fs st f = None |- _ => rewrite H in Hok end.
    discriminate Hok.
  - repeat (split_if; wp); try not_calm; wp_all; observe_sizes; auto.
  - wp_all; observe_sizes; auto.
Qed.

Lemma loop_body_sizes w n executable_path config i st :
  calm w ->
  upload_path_ok st = true ->
  post (p_print (LoopProgress (i + 1) n) OKGREEN ;;
        call w EvClearTmp ;;
        credentials <- generate_mail w ;;
        register w credentials executable_path config) st
    (fun _ st' =>
       size_checks (trace st') =
       size_checks (trace st) ++ given_path_check (console_args st)).
Proof.
  intros Hcalm Hok.
  wp; try not_calm.
  match goal with |- post (register _ ?c _ _) ?s _ =>
    unfold post;
    rewrite (register_calm_sizes w c executable_path config s Hcalm)
  end.
  - observe_sizes. reflexivity.
  - unfold upload_path_ok in *. observe_sizes. exact Hok.
Qed.

Lemma for_each_sizes w n executable_path config :
  calm w ->
  (1 < n)%Z ->
  forall k a st,
    loop (console_args st) = Some n ->
    upload_path_ok st = true ->
    post (for_each (map Z.of_nat (seq a k)) (fun i =>
            p_print (LoopProgress (i + 1) n) OKGREEN ;;
            call w EvClearTmp ;;
            credentials <- generate_mail w ;;
            register w credentials executable_path config)) st
      (fun r st' =>
         r = Ret tt /\
         size_checks (trace st') =
         size_checks (trace st) ++
         concat (repeat (given_path_check (console_args st)) k)).
Proof.
  intros Hcalm Hn. induction k as [|k IH]; intros a st Hloop Hok.
  - cbn [seq map for_each repeat concat]. wp. rewrite app_nil_r. auto.
  - cbn [seq map for_each repeat concat]. apply post_bind.
    assert (Hbody :
      post (p_print (LoopProgress (Z.of_nat a + 1) n) OKGREEN ;;
            call w EvClearTmp ;;
            credentials <- generate_mail w ;;
            register w credentials executable_path config) st
        (fun r st1 =>
           r = Ret tt /\
           console_args st1 = console_args st /\
           fs st1 = fs st /\
           size_checks (trace st1) =
           size_checks (trace st) ++ given_path_check (console_args st))).
    { pose proof (loop_body_calm w n executable_path config (Z.of_nat a) st
                    Hcalm Hn Hloop Hok) as Hbody.
      pose proof (loop_body_sizes w n executable_path config (Z.of_nat a) st
                    Hcalm Hok) as Hsizes.
      unfold post in *. destruct Hbody as (Hr & Ha & Hf & _). auto. }
    eapply post_weaken; [exact Hbody|].
    intros r st1 (-> & Ha & Hf & Hs). unfold then_post.
    eapply post_weaken; [apply (IH (S a) st1)|].
    + rewrite Ha. exact Hloop.
    + unfold upload_path_ok in *. rewrite Ha, Hf. exact Hok.
    + intros r st2 (-> & Hs2). split; [reflexivity|].
      rewrite Hs2, Hs, Ha, <- app_assoc. reflexivity.
Qed.

(** A single attempt with a path that is ready ends the process with
    status 0, after it archived a directory and asked for the size of the
    path it was left with. *)
Lemma single_shot_ready w executable_path config st :
  calm w ->
  match loop (console_args st) with
  | Some n => (1 <? n)%Z = false
  | None => True
  end ->
  upload_ready w st = true ->
  post (single_shot w executable_path config) st (fun r st' =>
    r = Exit 0%Z /\
    size_checks (trace st') = size_checks (trace st) ++ single_shot_checks st).
Proof.
  intros Hcalm Hloop Hready.
  assert (Hreg : forall c st2,
    loop (console_args st2) = loop (console_args st) ->
    upload_path_ok st2 = true ->
    post (register w c executable_path config) st2 (fun r st' =>
      r = Exit 0%Z /\
      size_checks (trace st') =
      size_checks (trace st2) ++ given_path_check (console_args st2))).
  { intros c st2 Hl Hok. unfold post.
    destruct (register_calm w c executable_path config st2 Hcalm Hok)
      as (Hr & _).
    rewrite Hr, (register_calm_sizes w c executable_path config st2 Hcalm Hok).
    split; [|reflexivity].
    unfold register_end. rewrite Hl.
    destruct (loop (console_args st)) as [n|]; [|reflexivity].
    rewrite Z.leb_antisym, Hloop. reflexivity. }
  unfold upload_ready in Hready. unfold single_shot_checks.
  unfold single_shot, archive_folder. wp; try not_calm. observe.
  destruct (file (console_args st)) as [f|] eqn:Hfile; wp.
  - destruct (String.eqb f "") eqn:Ef; wp.
    + eapply post_weaken; [apply Hreg; [reflexivity|]|].
      * unfold upload_path_ok. observe. rewrite Hfile. exact Hready.
      * intros r st' (-> & Hs). split; [reflexivity|].
        rewrite Hs. unfold given_path_check. observe_sizes.
        rewrite Hfile. reflexivity.
    + observe. destruct (fs_isdir (fs st) f) eqn:Hd; wp.
      * observe. rewrite Hd. cbn [negb]. wp; try not_calm.
        eapply post_weaken; [apply Hreg; [reflexivity|]|].
        -- unfold upload_path_ok. observe. exact Hready.
        -- intros r st' (-> & Hs). split; [reflexivity|].
           rewrite Hs. unfold given_path_check. observe_sizes. reflexivity.
      * eapply post_weaken; [apply Hreg; [reflexivity|]|].
        -- unfold upload_path_ok. observe. rewrite Hfile. exact Hready.
        -- intros r st' (-> & Hs). split; [reflexivity|].
           rewrite Hs. unfold given_path_check. observe_sizes.
           rewrite Hfile. reflexivity.
  - eapply post_weaken; [apply Hreg; [reflexivity|]|].
    + unfold upload_path_ok. observe. rewrite Hfile. reflexivity.
    + intros r st' (-> & Hs). split; [reflexivity|].
      rewrite Hs. unfold given_path_check. observe_sizes.
      rewrite Hfile, app_nil_r. reflexivity.
Qed.

(** When nothing raises and the browser is there, [__main__] comes to its
    last branch with the command line and the file system as they were, and
    no size asked for yet. *)
Lemma main_calm_dispatch w st (Q : Res unit -> State -> Prop) :
  convert (console_args st) = false ->
  extract (console_args st) = false ->
  keepalive (console_args st) = false ->
  calm w ->
  browser_available w st = true ->
  (forall executable_path config st1,
     console_args st1 = console_args st ->
     fs st1 = fs st ->
     size_checks (trace st1) = size_checks (trace st) ->
     post (match loop (console_args st) with
           | Some n =>
               if (1 <? n)%Z then loop_registrations w n executable_path config
               else single_shot w executable_path config
           | None => single_shot w executable_path config
           end) st1 Q) ->
  post (main w) st Q.
Proof.
  intros Hconv Hext Hka Hcalm Hbrowser Hgo.
  unfold browser_available in Hbrowser.
  unfold main, setup.
  wp; try not_calm. observe. rewrite Hconv, Hext, Hka. wp; try not_calm.
  destruct (stored_config w) as [cfg|]; wp; try not_calm.
  - destruct (String.eqb (executablePath cfg) "") eqn:He; wp; try not_calm.
    + observe. apply andb_prop in Hbrowser. destruct Hbrowser as (Hx & Hne).
      rewrite Hx. wp; try not_calm.
      apply negb_true_iff in Hne. rewrite Hne.
      apply Hgo; observe_sizes; reflexivity.
    + rewrite He. apply Hgo; observe_sizes; reflexivity.
  - cbn [String.eqb]. wp; try not_calm.
    observe. apply andb_prop in Hbrowser. destruct Hbrowser as (Hx & Hne).
    rewrite Hx. wp; try not_calm.
    apply negb_true_iff in Hne. rewrite Hne.
    apply Hgo; observe_sizes; reflexivity.
Qed.

Lemma main_batch_sizes w n st :
  convert (console_args st) = false ->
  extract (console_args st) = false ->
  keepalive (console_args st) = false ->
  loop (console_args st) = Some n ->
  (1 < n)%Z ->
  calm w ->
  browser_available w st = true ->
  upload_path_ok st = true ->
  fst (main w st) = Ret tt /\
  size_checks (trace (snd (main w st))) =
  size_checks (trace st) ++
  concat (repeat (given_path_check (console_args st)) (Z.to_nat n)).
Proof.
  intros Hconv Hext Hka Hloop Hn Hcalm Hbrowser Hok.
  apply (main_calm_dispatch w st (fun r st' =>
    r = Ret tt /\
    size_checks (trace st') =
    size_checks (trace st) ++
    concat (repeat (given_path_check (console_args st)) (Z.to_nat n))));
    try assumption.
  intros executable_path config st1 Ha Hf Hs.
  rewrite Hloop. replace (1 <? n)%Z with true by (symmetry; apply Z.ltb_lt; lia).
  unfold loop_registrations, range.
  eapply post_weaken;
    [apply (for_each_sizes w n executable_path config Hcalm Hn (Z.to_nat n) 0 st1)|].
  - rewrite Ha. exact Hloop.
  - unfold upload_path_ok in *. rewrite Ha, Hf. exact Hok.
  - intros r st2 (Hr & Hs2). rewrite Hs2, Hs, Ha. auto.
Qed.

(** When the upload path does not exist, the size check of [register] is
    made on it all the same, and raises. *)
Lemma register_missing_sizes w c executable_path config f st :
  calm w ->
  file (console_args st) = Some f ->
  fs st f = None ->
  post (register w c executable_path config) st (fun r st' =>
    r = Raise (FileNotFoundError f) /\
    size_checks (trace st') = size_checks (trace st) ++ [EvGetSize f]).
Proof.
  intros Hcalm Hfile Hnone.
  unfold register, register_upload.
  wp; try not_calm. observe_sizes. rewrite Hfile. wp.
  - observe_sizes. auto.
  - observe_sizes. congruence.
Qed.

Lemma main_batch_missing w n st f :
  convert (console_args st) = false ->
  extract (console_args st) = false ->
  keepalive (console_args st) = false ->
  loop (console_args st) = Some n ->
  (1 < n)%Z ->
  calm w ->
  browser_available w st = true ->
  file (console_args st) = Some f ->
  fs st f = None ->
  fst (main w st) = Raise (FileNotFoundError f) /\
  size_checks (trace (snd (main w st))) = size_checks (trace st) ++ [EvGetSize f].
Proof.
  intros Hconv Hext Hka Hloop Hn Hcalm Hbrowser Hfile Hnone.
  apply (main_calm_dispatch w st (fun r st' =>
    r = Raise (FileNotFoundError f) /\
    size_checks (trace st') = size_checks (trace st) ++ [EvGetSize f]));
    try assumption.
  intros executable_path config st1 Ha Hf Hs.
  rewrite Hloop. replace (1 <? n)%Z with true by (symmetry; apply Z.ltb_lt; lia).
  unfold loop_registrations, range.
  destruct (Z.to_nat n) as [|m] eqn:Em; [lia|].
  cbn [seq map for_each]. apply post_bind. wp; try not_calm.
  eapply post_weaken;
    [apply (register_missing_sizes w _ executable_path config f); try assumption|].
  - observe. rewrite Ha. exact Hfile.
  - observe. rewrite Hf. exact Hnone.
  - intros r st2 (-> & Hs2). unfold then_post. split; [reflexivity|].
    rewrite Hs2. observe_sizes. rewrite Hs. reflexivity.
Qed.

Lemma main_batch_rounds w n st :
  convert (console_args st) = false ->
  extract (console_args st) = false ->
  keepalive (console_args st) = false ->
  loop (console_args st) = Some n ->
  (1 < n)%Z ->
  calm w ->
  browser_available w st = true ->
  upload_path_ok st = true ->
  lifecycle (trace (snd (main w st))) =
  lifecycle (trace st) ++
  flat_map iteration
    (map (fresh_credentials w) (seq (generated st) (Z.to_nat n))).
Proof.
  intros Hconv Hext Hka Hloop Hn Hcalm Hbrowser Hok.
  destruct (main_calm_provisions w st Hconv Hext Hka Hcalm Hbrowser)
    as (exe & st1 & Ha & Hf & Hg & Hl & _ & E).
  rewrite E, Hloop.
  replace (1 <? n)%Z with true by (symmetry; apply Z.ltb_lt; lia).
  destruct (for_each_iterations w n exe (config_in_use w) Hcalm Hn
              (Z.to_nat n) 0 st1) as (_ & Hlc).
  - rewrite Ha. exact Hloop.
  - unfold upload_path_ok in *. rewrite Ha, Hf. exact Hok.
  - unfold loop_registrations, range. rewrite Hlc, Hl, Hg. reflexivity.
Qed.

Lemma main_single_shot_ready w st :
  convert (console_args st) = false ->
  extract (console_args st) = false ->
  keepalive (console_args st) = false ->
  match loop (console_args st) with
  | Some n => (1 <? n)%Z = false
  | None => True
  end ->
  calm w ->
  browser_available w st = true ->
  upload_ready w st = true ->
  fst (main w st) = Exit 0%Z /\
  size_checks (trace (snd (main w st))) =
  size_checks (trace st) ++ single_shot_checks st.
Proof.
  intros Hconv Hext Hka Hloop Hcalm Hbrowser Hready.
  apply (main_calm_dispatch w st (fun r st' =>
    r = Exit 0%Z /\
    size_checks (trace st') = size_checks (trace st) ++ single_shot_checks st));
    try assumption.
  intros executable_path config st1 Ha Hf Hs.
  assert (Hloop1 : match loop (console_args st1) with
                   | Some n => (1 <? n)%Z = false
                   | None => True
                   end) by (rewrite Ha; exact Hloop).
  assert (Hready1 : upload_ready w st1 = true)
    by (unfold upload_ready in *; rewrite Ha, Hf; exact Hready).
  assert (Hchecks : single_shot_checks st1 = single_shot_checks st)
    by (unfold single_shot_checks; rewrite Ha, Hf; reflexivity).
  rewrite <- Hs, <- Hchecks.
  destruct (loop (console_args st)) as [n|]; [rewrite Hloop|];
    apply single_shot_ready; assumption.
Qed.

(** C10: the loop count decides between the batch runner and the
    single-shot path.  In a batch (count above 1) nothing is archived and the
    size check and the upload get no other path than that of the command
    line; when no collaborator raises the rounds are all made and each asks
    for the size of that path, a directory as well, or, if the path does not
    exist, the first round asks for its size and the batch ends there.  With
    a count of at most 1, or none, the single attempt ends the process
    itself, with status 0 once it is complete: it is when nothing raises and
    the path [register] is left with, a file or the archive of a directory,
    exists, and then a directory was archived and the size asked for is that
    of the path [archive_folder] returned. *)
Theorem loop_count_selects_the_path w st :
  convert (console_args st) = false ->
  extract (console_args st) = false ->
  keepalive (console_args st) = false ->
  match loop (console_args st) with
  | Some n =>
      if (1 <? n)%Z then batch_run w n st (main w st)
      else single_shot_run w st (main w st)
  | None => single_shot_run w st (main w st)
  end.
Proof.
  intros Hconv Hext Hka.
  destruct (loop (console_args st)) as [n|] eqn:Hloop.
  - destruct (1 <? n)%Z eqn:Hn.
    + apply Z.ltb_lt in Hn. split; [|split].
      * exact (main_batch_run w n st Hloop Hn).
      * intros Hcalm Hbrowser Hok.
        destruct (main_batch_sizes w n st Hconv Hext Hka Hloop Hn Hcalm
                    Hbrowser Hok) as (Hr & Hs).
        split; [exact Hr|]. split; [|exact Hs].
        apply main_batch_rounds; assumption.
      * intros Hcalm Hbrowser f Hfile Hnone.
        apply (main_batch_missing w n st f); assumption.
    + split.
      * apply main_single_shot_outcome; auto. rewrite Hloop. exact Hn.
      * intros. apply main_single_shot_ready; auto. rewrite Hloop. exact Hn.
  - split.
    + apply main_single_shot_outcome; auto. rewrite Hloop. exact I.
    + intros. apply main_single_shot_ready; auto. rewrite Hloop. exact I.
Qed.

Lemma loop_count_selects_the_path_witness :
  single_shot_run quiet_world
    (start photos_fs (cli (Some "notes.txt") (Some 1%Z)))
    (main quiet_world (start photos_fs (cli (Some "notes.txt") (Some 1%Z))))
  /\
  single_shot_run quiet_world
    (start photos_fs (cli (Some "photos") None))
    (main quiet_world (start photos_fs (cli (Some "photos") None)))
  /\
  batch_run quiet_world 2
    (start photos_fs (cli (Some "photos") (Some 2%Z)))
    (main quiet_world (start photos_fs (cli (Some "photos") (Some 2%Z)))).
Proof.
  split; [|split].
  - apply (loop_count_selects_the_path quiet_world
             (start photos_fs (cli (Some "notes.txt") (Some 1%Z))));
      reflexivity.
  - apply (loop_count_selects_the_path quiet_world
             (start photos_fs (cli (Some "photos") None)));
      reflexivity.
  - apply (loop_count_selects_the_path quiet_world
             (start photos_fs (cli (Some "photos") (Some 2%Z))));
      reflexivity.
Defined.

(** The three runs above, to their end: the single attempts exit with
    status 0, the second one after it archived the directory and asked for
    the size of the archive; the batch asks twice for the size of the
    directory itself. *)
Example loop_count_runs :
  fst (main quiet_world (start photos_fs (cli (Some "notes.txt") (Some 1%Z)))) =
  Exit 0%Z /\
  fst (main quiet_world (start photos_fs (cli (Some "photos") None))) =
  Exit 0%Z /\
  size_checks
    (trace (snd (main quiet_world (start photos_fs (cli (Some "photos") None))))) =
  [EvMakeArchive "photos" "photos"; EvGetSize "photos.zip"] /\
  size_checks
    (trace (snd (main quiet_world
                   (start photos_fs (cli (Some "photos") (Some 2%Z)))))) =
  [EvGetSize "photos"; EvGetSize "photos"].
Proof. vm_compute. repeat split. Qed.
